(** * C backend of the CloudABI interface generator (generator/c.py)

    A shallow embedding of the C generator: the declarator synthesizer
    ([CNaming]), the type definition emitter ([CSyscalldefsGenerator]) and
    the syscall lowering engine ([CSyscallsImplGenerator]) with its two
    backends, followed by the properties of the generated text.

    Strings are byte strings, so identifiers are taken to be ASCII.  Text
    written with [print] is kept as the list of printed strings, one entry
    per call. *)

From Stdlib Require Import ZArith NArith String Ascii List Lia.
From stdpp Require Import base tactics option list strings pretty gmap sets.

Local Open Scope string_scope.
Local Open Scope list_scope.
Local Open Scope Z_scope.

(** ** Python string primitives *)

Module Py.

(** [' ' * n] *)
Fixpoint spaces (n : nat) : string :=
  match n with
  | O => ""
  | S n' => String " " (spaces n')
  end.

(** ['0' * n] *)
Fixpoint zeros (n : nat) : string :=
  match n with
  | O => ""
  | S n' => String "0" (zeros n')
  end.

(** [c.upper()] on one ASCII character. *)
Definition upper_ascii (c : ascii) : ascii :=
  let n := nat_of_ascii c in
  if (Nat.leb 97 n && Nat.leb n 122)%bool then ascii_of_nat (n - 32) else c.

(** [s.upper()] *)
Fixpoint upper (s : string) : string :=
  match s with
  | EmptyString => EmptyString
  | String c s' => String (upper_ascii c) (upper s')
  end.

(** [str(n)] for an integer. *)
Definition str (n : Z) : string := pretty n.

(** [max(f(x) for x in l)] on lengths; the callers guard against the
    empty sequence. *)
Definition max_of {A} (f : A → nat) (l : list A) : nat :=
  foldr (λ x acc, Nat.max (f x) acc) O l.

(** [format(s, str(width))] for a string [s]: left-aligned, padded with
    spaces on the right up to [width]. *)
Definition format_str (width : nat) (s : string) : string :=
  s +:+ spaces (width - String.length s).

Definition hex_char (d : N) : ascii :=
  match d with
  | 0 => "0" | 1 => "1" | 2 => "2" | 3 => "3" | 4 => "4" | 5 => "5"
  | 6 => "6" | 7 => "7" | 8 => "8" | 9 => "9" | 10 => "a" | 11 => "b"
  | 12 => "c" | 13 => "d" | 14 => "e" | _ => "f"
  end%char%N.

Fixpoint hex_go (fuel : nat) (x : N) (acc : string) : string :=
  match fuel with
  | O => acc
  | S fuel' =>
      if (x =? 0)%N then acc
      else hex_go fuel' (x / 16)%N (String (hex_char (x mod 16)%N) acc)
  end.

(** The hexadecimal digits of [x], lower case, ["0"] for zero. *)
Definition hex_digits (x : N) : string :=
  if (x =? 0)%N then "0" else hex_go (N.size_nat x) x "".

(** The format specifications that [generate_type] builds for values. *)
Inductive val_format : Type :=
  | Fmt_d                          (* 'd' *)
  | Fmt_width_d (width : nat)      (* '{}d'.format(val_width) *)
  | Fmt_alt_zero_x (width : Z).    (* '#0{}x'.format(size * 2 + 2) *)

Definition sign_of (v : Z) : string := if v <? 0 then "-" else "".

(** [format(v, spec)] for an integer [v].  A width is a minimum: longer
    renderings are not truncated.  A negative number after ['#0'] is not a
    valid specification. *)
Definition format_int (spec : val_format) (v : Z) : option string :=
  match spec with
  | Fmt_d => Some (str v)
  | Fmt_width_d width =>
      Some (spaces (width - String.length (str v)) +:+ str v)
  | Fmt_alt_zero_x width =>
      if width <? 0 then None
      else
        let digits := hex_digits (Z.abs_N v) in
        let lead := sign_of v +:+ "0x" in
        Some (lead +:+
              zeros (Z.to_nat width
                     - String.length lead - String.length digits) +:+
              digits)
  end.

End Py.

(** ** Output and failure *)

Inductive exn : Type :=
  | AssertionError
  | IndexError
  | AttributeError
  | ValueError
  | CastException.   (* Exception('Can't cast {} to {}.') *)

(** A computation that prints lines and either fails or returns.  What was
    printed before a failure stays printed. *)
Definition Gen (A : Type) : Type := (list string * (exn + A))%type.

Definition printed {A} (g : Gen A) : list string := g.1.

Definition print (s : string) : Gen unit := ([s], inr tt).
Definition raise {A} (e : exn) : Gen A := ([], inl e).
Definition lift {A} (r : exn + A) : Gen A := ([], r).

#[global] Instance Gen_ret : MRet Gen := λ A a, ([], inr a).
#[global] Instance Gen_bind : MBind Gen := λ A B f m,
  match m with
  | (out, inl e) => (out, inl e)
  | (out, inr a) => let '(out', r) := f a in (out ++ out', r)
  end.

(** [for x in l: body(x)] *)
Definition for_each {A} (l : list A) (body : A → Gen unit) : Gen unit :=
  (fix loop (l : list A) : Gen unit :=
     match l with
     | [] => mret tt
     | x :: l' => body x;; loop l'
     end) l.

(** [for x in l: s = body(s, x)], for a loop that updates local state. *)
Fixpoint for_fold {A S} (l : list A) (s : S) (body : S → A → Gen S) : Gen S :=
  match l with
  | [] => mret s
  | x :: l' => s' ← body s x; for_fold l' s' body
  end.

(** [enumerate(l)] *)
Definition enumerate {A} (l : list A) : list (nat * A) :=
  zip (seq 0 (length l)) l.

(** [l[i]] *)
Definition index (l : list string) (i : nat) : Gen string :=
  match l !! i with
  | Some x => mret x
  | None => raise IndexError
  end.

(** ** The ABI description (generator/abi.py)

    c.py imports the classes of the ABI description from abi.py, which is
    not among the sources.  The definitions of this part follow section 3
    of the specification and the attributes that c.py reads. *)

(** Modelled from the spec: the class [Layout] of abi.py.  [size] and
    [align] are pairs (32-bit value, 64-bit value). *)
Record Layout : Type := {
  layout_size : Z * Z;
  layout_align : Z * Z;
  layout_machine_dep : bool
}.

(** Modelled from the spec: a value of an integer-like type in abi.py, a
    named constant with [v.name] and [v.value]. *)
Record Value : Type := {
  value_name : string;
  value : Z
}.

(** Modelled from the spec: the subclasses of [IntLikeType] in abi.py. *)
Inductive IntLikeKind : Type := EnumType | FlagsType | OpaqueType.

(** Modelled from the spec: the type and member classes of abi.py.
    [IntLikeType], [FunctionType] and [StructType] are user-defined types,
    named like [UserDefinedType].  A member list holds
    [SimpleStructMember]s and [VariantStructMember]s; the [members] of a
    [VariantStructMember] are [VariantMember]s, whose [type] is a struct
    type. *)
#[local] Unset Elimination Schemes.
Inductive abi_type : Type :=
  | VoidType
  | IntType (name : string) (layout : Layout)
  | UserDefinedType (name : string) (layout : Layout)
  | IntLikeType (kind : IntLikeKind) (name : string) (layout : Layout)
      (int_type : abi_type) (values : list Value) (cprefix : string)
  | FunctionType (name : string) (layout : Layout)
      (parameters : list member) (return_type : abi_type)
  | StructType (name : string) (layout : Layout)
      (raw_members : list member) (members : list member)
  | AtomicType (target_type : abi_type)
  | PointerType (target_type : abi_type) (const : bool)
  | ArrayType (count : Z) (element_type : abi_type)
with member : Type :=
  | SimpleStructMember (name : string) (type : abi_type)
      (offset : option (Z * Z))
  | VariantStructMember (members : list member) (offset : option (Z * Z))
  | VariantMember (name : option string) (type : abi_type).
#[local] Set Elimination Schemes.

(** [isinstance(type, StructType)] *)
Definition is_StructType (type : abi_type) : bool :=
  match type with
  | StructType _ _ _ _ => true
  | _ => false
  end.

(** Modelled from the spec: the layout of a pointer in abi.py, the pointer
    width of the 32-bit and of the 64-bit architecture. *)
Definition pointer_layout : Layout :=
  {| layout_size := (4, 8); layout_align := (4, 8);
     layout_machine_dep := true |}.

(** Modelled from the spec: the attribute [type.layout] of abi.py.
    [VoidType] is not a sized type and has none; an atomic type has the
    layout of its target, an array its element's layout times the count. *)
Fixpoint layout (type : abi_type) : option Layout :=
  match type with
  | VoidType => None
  | IntType _ l | UserDefinedType _ l | IntLikeType _ _ l _ _ _
  | FunctionType _ l _ _ | StructType _ l _ _ => Some l
  | AtomicType target_type => layout target_type
  | PointerType _ _ => Some pointer_layout
  | ArrayType count element_type =>
      match layout element_type with
      | Some l =>
          Some {| layout_size := ((layout_size l).1 * count,
                                  (layout_size l).2 * count);
                  layout_align := layout_align l;
                  layout_machine_dep := layout_machine_dep l |}
      | None => None
      end
  end.

(** [type.layout.size]; reading an attribute of an absent layout fails. *)
Definition size_of (type : abi_type) : exn + (Z * Z) :=
  match layout type with
  | Some l => inr (layout_size l)
  | None => inl AttributeError
  end.

(** Modelled from the spec: [PointerType()] with the default arguments of
    abi.py, a pointer to [void] that is not const. *)
Definition PointerType_default : abi_type := PointerType VoidType false.

(** Modelled from the spec: [int_types['uint64']] of abi.py. *)
Definition int_type_uint64 : abi_type :=
  IntType "uint64" {| layout_size := (8, 8); layout_align := (8, 8);
                      layout_machine_dep := false |}.

(** Modelled from the spec: [int_types['char']] of abi.py. *)
Definition int_type_char : abi_type :=
  IntType "char" {| layout_size := (1, 1); layout_align := (1, 1);
                    layout_machine_dep := false |}.

(** Modelled from the spec: a member of [syscall.input.raw_members] or
    [syscall.output.raw_members], a simple member of which the lowering
    reads the name and the type. *)
Record Param : Type := {
  param_name : string;
  param_type : abi_type
}.

(** Modelled from the spec: the class [Syscall] of abi.py. *)
Record Syscall : Type := {
  syscall_name : string;
  number : Z;
  syscall_machine_dep : bool;
  noreturn : bool;
  input : list Param;    (* syscall.input.raw_members *)
  output : list Param    (* syscall.output.raw_members *)
}.

(** ** CNaming *)

Record CNaming : Type := {
  prefix : string;
  md_prefix : option string;
  c11 : bool
}.

(** The branches of [typename] for [VoidType], [IntType] and
    [UserDefinedType], which do not recurse.  The types are a closed
    inductive type, so the final [raise] of the source is not reached. *)
Definition typename_plain (self : CNaming) (type : abi_type) : string :=
  match type with
  | VoidType => "void"
  | IntType name _ =>
      if decide (name = "char") then "char" else name +:+ "_t"
  | UserDefinedType name l | IntLikeType _ name l _ _ _
  | FunctionType name l _ _ | StructType name l _ _ =>
      let prefix :=
        match md_prefix self with
        | Some md => if layout_machine_dep l then md else prefix self
        | None => prefix self
        end in
      prefix +:+ name +:+ "_t"
  | _ => ""
  end.

(** [typename] and [vardecl] call each other on the same type: [typename]
    hands pointers and arrays to [vardecl], and [vardecl] hands everything
    else to [typename].  To make the recursion structural each function
    carries the other's branch for those types; [typename_eq] and
    [vardecl_eq] below give the equations of the source back. *)
Fixpoint typename (self : CNaming) (type : abi_type) {struct type} : string :=
  match type with
  | AtomicType target_type =>
      if c11 self then "_Atomic(" +:+ typename self target_type +:+ ")"
      else typename self target_type
  | PointerType target_type const =>
      let decl := vardecl self target_type ("*" +:+ "") true in
      if const then "const " +:+ decl else decl
  | ArrayType count element_type =>
      vardecl self element_type ("" +:+ "[" +:+ Py.str count +:+ "]") false
  | _ => typename_plain self type
  end
with vardecl (self : CNaming) (type : abi_type) (name : string)
    (array_need_parens : bool) {struct type} : string :=
  match type with
  | PointerType target_type const =>
      let decl := vardecl self target_type ("*" +:+ name) true in
      if const then "const " +:+ decl else decl
  | ArrayType count element_type =>
      let name := if array_need_parens then "(" +:+ name +:+ ")" else name in
      vardecl self element_type (name +:+ "[" +:+ Py.str count +:+ "]") false
  | AtomicType target_type =>
      (if c11 self then "_Atomic(" +:+ typename self target_type +:+ ")"
       else typename self target_type) +:+ " " +:+ name
  | _ => typename_plain self type +:+ " " +:+ name
  end.

(** [valname]: the name of the preprocessor constant of a value. *)
Definition valname (self : CNaming) (cprefix : string) (v : Value) : string :=
  Py.upper (prefix self +:+ cprefix +:+ value_name v).

(** Characters that a string literal cannot hold. *)
Definition TAB : string := String "009"%char "".
Definition NL : string := String "010"%char "".
Definition DQ : string := String "034"%char "".

(** ** CGenerator *)

Record CGenerator : Type := {
  naming : CNaming;
  header_guard : option string;
  machine_dep : option bool;
  md_type : option abi_type;
  preamble : string
}.

(** ** CSyscalldefsGenerator *)

(** [static_assert.format(cond)] *)
Definition static_assert (cond : string) : string :=
  "_Static_assert(" +:+ cond +:+ ", " +:+ DQ +:+ "Incorrect layout" +:+ DQ
  +:+ ");".

(** [self.md_type is not None and self.md_type.layout.size in sizes] *)
Definition md_type_size_in (self : CGenerator) (sizes : list (Z * Z))
    : Gen bool :=
  match md_type self with
  | None => mret false
  | Some t => s ← lift (size_of t); mret (bool_decide (s ∈ sizes))
  end.

Definition generate_layout_assert (self : CGenerator) (expression : string)
    (value : Z * Z) : Gen unit :=
  single ← (if decide (value.1 = value.2) then mret true
            else md_type_size_in self [(4, 4); (8, 8)]);
  if (single : bool) then
    narrow ← md_type_size_in self [(4, 4)];
    let v := if (narrow : bool) then value.1 else value.2 in
    print (static_assert (expression +:+ " == " +:+ Py.str v))
  else
    let voidptr := typename (naming self) PointerType_default in
    print (static_assert ("sizeof(" +:+ voidptr +:+ ") != 4 || " +:+
                          expression +:+ " == " +:+ Py.str value.1));;
    print (static_assert ("sizeof(" +:+ voidptr +:+ ") != 8 || " +:+
                          expression +:+ " == " +:+ Py.str value.2)).

Definition generate_offset_assert (self : CGenerator)
    (type_name member_name : string) (offset : Z * Z) : Gen unit :=
  generate_layout_assert self
    ("offsetof(" +:+ type_name +:+ ", " +:+ member_name +:+ ")") offset.

Definition generate_size_assert (self : CGenerator) (type_name : string)
    (size : Z * Z) : Gen unit :=
  generate_layout_assert self ("sizeof(" +:+ type_name +:+ ")") size.

Definition generate_align_assert (self : CGenerator) (type_name : string)
    (align : Z * Z) : Gen unit :=
  generate_layout_assert self ("_Alignof(" +:+ type_name +:+ ")") align.


(** The body of the loop of [generate_offset_asserts] for one member [m];
    its recursive calls on [m.type.members] and on [m.members] are the
    loops over these lists. *)
Fixpoint generate_offset_asserts_member (self : CGenerator)
    (type_name : string) (m : member) (prefix : string) (offset : Z * Z)
    {struct m} : Gen unit :=
  match m with
  | VariantMember name type =>
      let mprefix :=
        match name with
        | Some n => prefix +:+ (n +:+ ".")
        | None => prefix
        end in
      match type with
      | StructType _ _ _ members =>
          for_each members (λ m',
            generate_offset_asserts_member self type_name m' mprefix offset)
      | _ => raise AttributeError
      end
  | VariantStructMember members (Some o) =>
      let moffset := (offset.1 + o.1, offset.2 + o.2) in
      for_each members (λ m',
        generate_offset_asserts_member self type_name m' prefix moffset)
  | SimpleStructMember name _ (Some o) =>
      let moffset := (offset.1 + o.1, offset.2 + o.2) in
      generate_offset_assert self type_name (prefix +:+ name) moffset
  | VariantStructMember _ None | SimpleStructMember _ _ None => mret tt
  end.

Definition generate_offset_asserts (self : CGenerator) (type_name : string)
    (members : list member) (prefix : string) (offset : Z * Z) : Gen unit :=
  for_each members
    (λ m, generate_offset_asserts_member self type_name m prefix offset).

(** The three groups of layout assertions that [generate_type] emits for a
    struct type. *)
Definition generate_struct_asserts (self : CGenerator) (type : abi_type)
    (raw_members : list member) (l : Layout) : Gen unit :=
  let typename := typename (naming self) type in
  generate_offset_asserts self typename raw_members "" (0, 0);;
  generate_size_assert self typename (layout_size l);;
  generate_align_assert self typename (layout_align l).

(** The value format that [generate_type] picks for an integer-like type. *)
Definition val_format_of (kind : IntLikeKind) (l : Layout)
    (values : list Value) : Py.val_format :=
  match kind with
  | FlagsType | OpaqueType =>
      match values with
      | [v] =>
          if decide (value v = 0) then Py.Fmt_d
          else Py.Fmt_alt_zero_x ((layout_size l).1 * 2 + 2)
      | _ => Py.Fmt_alt_zero_x ((layout_size l).1 * 2 + 2)
      end
  | EnumType =>
      Py.Fmt_width_d
        (Py.max_of (λ v, String.length (Py.str (value v))) values)
  end.

(** One [#define] line. *)
Definition define_line (name : string) (width : nat) (val : Z)
    (val_format : Py.val_format) : Gen unit :=
  match Py.format_int val_format val with
  | Some rendered =>
      print ("#define " +:+ Py.format_str width name +:+ " " +:+ rendered)
  | None => raise ValueError
  end.

(** [generate_type] on an integer-like type. *)
Definition generate_type_IntLike (self : CGenerator) (kind : IntLikeKind)
    (name : string) (l : Layout) (int_type : abi_type) (values : list Value)
    (cprefix : string) : Gen unit :=
  let type := IntLikeType kind name l int_type values cprefix in
  let skip :=
    match machine_dep self with
    | Some md => negb (Bool.eqb (layout_machine_dep l) md)
    | None => false
    end in
  if skip then mret tt
  else
    print ("typedef " +:+
           vardecl (naming self) int_type (typename (naming self) type) false
           +:+ ";");;
    (if decide (0 < length values)%nat then
       let width :=
         Py.max_of (λ v, String.length (valname (naming self) cprefix v))
           values in
       let val_format := val_format_of kind l values in
       for_each values (λ v,
         define_line (valname (naming self) cprefix v) width (value v)
           val_format)
     else mret tt);;
    print "".

(** ** CSyscallsImplGenerator *)

(** The naming policy and the attributes that a backend class sets. *)
Record CSyscallsImplGenerator : Type := {
  impl_naming : CNaming;
  syscall_num_register : string;
  input_registers : list string;
  output_registers : list string;
  errno_register : string;
  clobbers : string;
  register_t : abi_type;
  okay_t : abi_type;
  asm : string;
  asm_check : string
}.

Definition _ccast (self : CSyscallsImplGenerator)
    (type_from type_to : abi_type) (name : string) : exn + string :=
  if is_StructType type_from || is_StructType type_to then
    match size_of type_from, size_of type_to with
    | inl e, _ => inl e
    | inr _, inl e => inl e
    | inr size_from, inr size_to =>
        if decide (size_from ≠ size_to) then inl CastException
        else inr ("*(" +:+
                  typename (impl_naming self) (PointerType type_to false)
                  +:+ ")&" +:+ name)
    end
  else inr ("(" +:+ typename (impl_naming self) type_to +:+ ")" +:+ name).

(** The line that [define_reg] prints. *)
Definition register_line (self : CSyscallsImplGenerator) (register : string)
    (defn : string) : string :=
  TAB +:+ "register " +:+
  vardecl (impl_naming self) (register_t self) ("reg_" +:+ register) false
  +:+ " asm(" +:+ DQ +:+ register +:+ DQ +:+ ")" +:+ defn +:+ ";".

(** The local function [define_reg]; the set [defined_regs] that it
    updates is passed in and returned.  [value] is already rendered. *)
Definition define_reg (self : CSyscallsImplGenerator)
    (defined_regs : gset string) (register : string) (value : option string)
    : Gen (gset string) :=
  match value with
  | None =>
      if decide (register ∈ defined_regs) then mret defined_regs
      else
        print (register_line self register "");;
        mret ({[register]} ∪ defined_regs)
  | Some v =>
      if decide (register ∈ defined_regs) then raise AssertionError
      else
        print (register_line self register (" = " +:+ v));;
        mret ({[register]} ∪ defined_regs)
  end.

(** The register declarations of [generate_syscall_body] (the statements
    from [defined_regs = set()] to [define_reg(self.errno_register)]);
    returns the final [defined_regs]. *)
Definition declare_registers (self : CSyscallsImplGenerator)
    (syscall : Syscall) : Gen (gset string) :=
  let defined_regs : gset string := ∅ in
  defined_regs ← define_reg self defined_regs (syscall_num_register self)
                   (Some (Py.str (number syscall)));
  defined_regs ← for_fold (enumerate (input syscall)) defined_regs
    (λ defined_regs ip,
       register ← index (input_registers self) ip.1;
       value ← lift (_ccast self (param_type ip.2) (register_t self)
                       (param_name ip.2));
       define_reg self defined_regs register (Some value));
  defined_regs ← for_fold (seq 0 (length (output syscall))) defined_regs
    (λ defined_regs i,
       register ← index (output_registers self) i;
       define_reg self defined_regs register None);
  define_reg self defined_regs (errno_register self) None.

(** One output operand line: [':'] before the first operand, [','] before
    the others. *)
Definition output_operand (first : bool) (var : string) : string :=
  TAB +:+ TAB +:+ (if first then ":" else ",") +:+ " " +:+ DQ +:+ "=r" +:+ DQ
  +:+ "(" +:+ var +:+ ")".

(** The output operand list of the [asm] statement (from [first = True] to
    the lone [':'] of an empty list). *)
Definition output_operands (self : CSyscallsImplGenerator)
    (syscall : Syscall) (check_okay : bool) : Gen unit :=
  let first := true in
  first ← (if check_okay then print (output_operand true "okay");; mret false
           else mret first);
  first ← for_fold (seq 0 (length (output syscall))) first
    (λ first i,
       register ← index (output_registers self) i;
       print (output_operand first ("reg_" +:+ register));;
       mret false);
  first ← (if negb (noreturn syscall) then
             if decide (errno_register self ∈
                        take (length (output syscall)) (output_registers self))
             then mret first
             else
               print (output_operand first ("reg_" +:+ errno_register self));;
               mret false
           else mret first);
  if (first : bool) then print (TAB +:+ TAB +:+ ":") else mret tt.

(** The input operand list. *)
Definition input_operands (self : CSyscallsImplGenerator) (syscall : Syscall)
    : Gen unit :=
  print (TAB +:+ TAB +:+ ": " +:+ DQ +:+ "r" +:+ DQ +:+ "(reg_" +:+
         syscall_num_register self +:+ ")");;
  for_each (seq 0 (length (input syscall))) (λ i,
    register ← index (input_registers self) i;
    print (TAB +:+ TAB +:+ ", " +:+ DQ +:+ "r" +:+ DQ +:+ "(reg_" +:+
           register +:+ ")")).

(** The write-back of the outputs, guarded by [okay]. *)
Definition write_back (self : CSyscallsImplGenerator) (syscall : Syscall)
    : Gen unit :=
  print (TAB +:+ "if (okay) {");;
  for_each (enumerate (output syscall)) (λ ip,
    register ← index (output_registers self) ip.1;
    value ← lift (_ccast self (register_t self) (param_type ip.2)
                    ("reg_" +:+ register));
    print (TAB +:+ TAB +:+ "*" +:+ param_name ip.2 +:+ " = " +:+ value
           +:+ ";"));;
  print (TAB +:+ TAB +:+ "return 0;");;
  print (TAB +:+ "}").

Definition generate_syscall_body (self : CSyscallsImplGenerator)
    (syscall : Syscall) : Gen unit :=
  print " {";;
  let check_okay := bool_decide (0 < length (output syscall))%nat in
  _ ← declare_registers self syscall;
  (if check_okay then
     print (TAB +:+ "register " +:+
            vardecl (impl_naming self) (okay_t self) "okay" false +:+ ";")
   else mret tt);;
  print (TAB +:+ "asm volatile (");;
  print (asm self);;
  (if check_okay then print (asm_check self) else mret tt);;
  output_operands self syscall check_okay;;
  input_operands self syscall;;
  print (TAB +:+ TAB +:+ ": " +:+ clobbers self +:+ ");");;
  (if check_okay then write_back self syscall else mret tt);;
  (if noreturn syscall then print (TAB +:+ "for (;;);")
   else print (TAB +:+ "return reg_" +:+ errno_register self +:+ ";"));;
  print "}".

(** *** The two backends *)

Definition CSyscallsX86_64Generator (naming : CNaming)
    : CSyscallsImplGenerator := {|
  impl_naming := naming;
  syscall_num_register := "rax";
  input_registers := ["rdi"; "rsi"; "rdx"; "r10"; "r8"; "r9"];
  output_registers := ["rax"; "rdx"];
  errno_register := "rax";
  clobbers :=
    DQ +:+ "memory" +:+ DQ +:+ ", " +:+ DQ +:+ "rcx" +:+ DQ +:+ ", " +:+
    DQ +:+ "rdx" +:+ DQ +:+ ", " +:+ DQ +:+ "r8" +:+ DQ +:+ ", " +:+
    DQ +:+ "r9" +:+ DQ +:+ ", " +:+ DQ +:+ "r10" +:+ DQ +:+ ", " +:+
    DQ +:+ "r11" +:+ DQ;
  register_t := int_type_uint64;
  okay_t := int_type_char;
  asm := TAB +:+ TAB +:+ DQ +:+ "\tsyscall\n" +:+ DQ;
  asm_check := TAB +:+ TAB +:+ DQ +:+ "\tsetnc %0\n" +:+ DQ
|}.

(** Register names in double quotes, each after a comma and a space. *)
Definition quoted (names : list string) : string :=
  foldr (λ n acc, ", " +:+ DQ +:+ n +:+ DQ +:+ acc) "" names.

Definition CSyscallsAarch64Generator (naming : CNaming)
    : CSyscallsImplGenerator := {|
  impl_naming := naming;
  syscall_num_register := "x8";
  input_registers := ["x0"; "x1"; "x2"; "x3"; "x4"; "x5"];
  output_registers := ["x0"; "x1"];
  errno_register := "x0";
  clobbers :=
    DQ +:+ "memory" +:+ DQ +:+ NL +:+
    TAB +:+ TAB +:+
      quoted ["x0"; "x1"; "x2"; "x3"; "x4"; "x5"; "x6"; "x7"] +:+ NL +:+
    TAB +:+ TAB +:+
      quoted ["x8"; "x9"; "x10"; "x11"; "x12"; "x13"; "x14"; "x15"] +:+ NL +:+
    TAB +:+ TAB +:+ quoted ["x16"; "x17"; "x18"] +:+ NL +:+
    TAB +:+ TAB +:+
      quoted ["d0"; "d1"; "d2"; "d3"; "d4"; "d5"; "d6"; "d7"];
  register_t := int_type_uint64;
  okay_t := int_type_uint64;
  asm := TAB +:+ TAB +:+ DQ +:+ "\tsvc 0\n" +:+ DQ;
  asm_check := TAB +:+ TAB +:+ DQ +:+ "\tcset %0, cc\n" +:+ DQ
|}.

(** ** CNaming: names of system calls *)

Definition syscallname (self : CNaming) (syscall : Syscall) : string :=
  let prefix :=
    match md_prefix self with
    | Some md => if syscall_machine_dep syscall then md else prefix self
    | None => prefix self
    end in
  prefix +:+ "sys_" +:+ syscall_name syscall.

(** ** CGenerator: the machine word type *)

(** [isinstance(mtype, PointerType)] *)
Definition is_PointerType (type : abi_type) : bool :=
  match type with
  | PointerType _ _ => true
  | _ => false
  end.

(** Modelled from the spec: [mtype.name == name].  The integer types and
    the user-defined types carry the name they were declared with; the void
    type, atomic types and array types are not the size-word type. *)
Definition has_name (type : abi_type) (n : string) : bool :=
  match type with
  | IntType name _ | UserDefinedType name _ | IntLikeType _ name _ _ _ _
  | FunctionType name _ _ _ | StructType name _ _ _ => bool_decide (name = n)
  | _ => false
  end.

Fixpoint mi_type (self : CGenerator) (mtype : abi_type) {struct mtype}
    : abi_type :=
  match md_type self with
  | Some md_type =>
      if is_PointerType mtype || has_name mtype "size" then md_type
      else
        match mtype with
        | ArrayType count element_type =>
            ArrayType count (mi_type self element_type)
        | AtomicType target_type => AtomicType (mi_type self target_type)
        | _ => mtype
        end
  | None => mtype
  end.

(** ** CSyscalldefsGenerator: definitions of types *)

(** The failures of the type emitter: those of the code that it calls, and
    the two exceptions that it raises itself. *)
Inductive type_exn : Type :=
  | Raised (e : exn)
  | UnknownStructMember    (* Exception('Unknown struct member: {}') *)
  | UnknownClassOfType.    (* Exception('Unknown class of type: {}') *)

Definition TypeGen (A : Type) : Type := (list string * (type_exn + A))%type.

#[global] Instance TypeGen_ret : MRet TypeGen := λ A a, ([], inr a).
#[global] Instance TypeGen_bind : MBind TypeGen := λ A B f m,
  match m with
  | (out, inl e) => (out, inl e)
  | (out, inr a) => let '(out', r) := f a in (out ++ out', r)
  end.

(** A computation of the shared code, run by the type emitter. *)
Definition run {A} (g : Gen A) : TypeGen A :=
  (g.1, match g.2 with
        | inl e => inl (Raised e)
        | inr a => inr a
        end).

Definition fail {A} (e : type_exn) : TypeGen A := ([], inl e).

(** [for x in l: body(x)] *)
Definition type_for_each {A} (l : list A) (body : A → TypeGen unit)
    : TypeGen unit :=
  (fix loop (l : list A) : TypeGen unit :=
     match l with
     | [] => mret tt
     | x :: l' => body x;; loop l'
     end) l.

(** [type.layout.align]; reading an attribute of an absent layout fails. *)
Definition align_of (type : abi_type) : exn + (Z * Z) :=
  match layout type with
  | Some l => inr (layout_align l)
  | None => inl AttributeError
  end.

(** The branch of [generate_struct_members] for a simple member. *)
Definition generate_simple_member (self : CGenerator) (indent name : string)
    (type : abi_type) : TypeGen unit :=
  let mtype := mi_type self type in
  align ← run (lift (align_of mtype));
  let alignas :=
    if decide (align.1 = align.2)
    then "_Alignas(" +:+ Py.str align.1 +:+ ") " else "" in
  run (print (indent +:+ alignas +:+
              vardecl (naming self) mtype name false +:+ ";")).

(** The body of the loop of [generate_struct_members] for one member [m];
    the recursive calls on [x.type] are the loops over its raw members.
    The arms [x] of a variant member are read through [x.name] and
    [x.type], which a simple member has too; a variant struct member has no
    name, and only a struct type has raw members.  The parameter [abi] of
    the source is not used. *)
Fixpoint generate_struct_member (self : CGenerator) (m : member)
    (indent : string) {struct m} : TypeGen unit :=
  match m with
  | SimpleStructMember name type _ =>
      generate_simple_member self indent name type
  | VariantStructMember members _ =>
      run (print (indent +:+ "union {"));;
      type_for_each members (λ x,
        match x with
        | VariantMember None type =>
            match type with
            | StructType _ _ raw_members _ =>
                type_for_each raw_members (λ m',
                  generate_struct_member self m' (indent +:+ TAB))
            | _ => fail (Raised AttributeError)
            end
        | VariantMember (Some name) type | SimpleStructMember name type _ =>
            run (print (indent +:+ TAB +:+ "struct {"));;
            match type with
            | StructType _ _ raw_members _ =>
                type_for_each raw_members (λ m',
                  generate_struct_member self m' (indent +:+ TAB +:+ TAB))
            | _ => fail (Raised AttributeError)
            end;;
            run (print (indent +:+ TAB +:+ "} " +:+ name +:+ ";"))
        | VariantStructMember _ _ => fail (Raised AttributeError)
        end);;
      run (print (indent +:+ "};"))
  | VariantMember _ _ => fail UnknownStructMember
  end.

Definition generate_struct_members (self : CGenerator) (type : abi_type)
    (indent : string) : TypeGen unit :=
  match type with
  | StructType _ _ raw_members _ =>
      type_for_each raw_members (λ m, generate_struct_member self m indent)
  | _ => fail (Raised AttributeError)
  end.

(** [sep.join(l)] *)
Fixpoint join (sep : string) (l : list string) : string :=
  match l with
  | [] => ""
  | x :: l' =>
      match l' with
      | [] => x
      | _ => x +:+ sep +:+ join sep l'
      end
  end.

(** [p.type] and [p.name] of a parameter of a function type, the name as
    [format] renders it. *)
Definition parameter_type_name (p : member) : exn + (abi_type * string) :=
  match p with
  | SimpleStructMember name type _ => inr (type, name)
  | VariantMember (Some name) type => inr (type, name)
  | VariantMember None type => inr (type, "None")
  | VariantStructMember _ _ => inl AttributeError
  end.

(** The list [parameters] that [generate_type] builds for a function
    type. *)
Fixpoint function_parameters (self : CGenerator) (raw_members : list member)
    : exn + list string :=
  match raw_members with
  | [] => inr []
  | p :: raw_members =>
      match parameter_type_name p with
      | inl e => inl e
      | inr (type, name) =>
          match function_parameters self raw_members with
          | inl e => inl e
          | inr parameters =>
              inr (vardecl (naming self) (mi_type self type) name false
                   :: parameters)
          end
      end
  end.

(** [type.layout.machine_dep] *)
Definition machine_dep_of (type : abi_type) : exn + bool :=
  match layout type with
  | Some l => inr (layout_machine_dep l)
  | None => inl AttributeError
  end.

Definition generate_type (self : CGenerator) (type : abi_type)
    : TypeGen unit :=
  skip ← match machine_dep self with
         | Some md =>
             type_md ← run (lift (machine_dep_of type));
             mret (negb (Bool.eqb type_md md))
         | None => mret false
         end;
  if (skip : bool) then mret tt
  else
    match type with
    | IntLikeType kind _ l int_type values cprefix =>
        run (print ("typedef " +:+
                    vardecl (naming self) int_type
                      (typename (naming self) type) false +:+ ";"));;
        if decide (0 < length values)%nat then
          let width :=
            Py.max_of (λ v, String.length (valname (naming self) cprefix v))
              values in
          let val_format := val_format_of kind l values in
          type_for_each values (λ v,
            run (define_line (valname (naming self) cprefix v) width
                   (value v) val_format))
        else mret tt
    | FunctionType _ _ parameters return_type =>
        parameters ← run (lift (function_parameters self parameters));
        run (print ("typedef " +:+
                    vardecl (naming self) (mi_type self return_type)
                      (typename (naming self) type +:+ "(" +:+
                       join ", " parameters +:+ ")") true +:+ ";"))
    | StructType _ l raw_members _ =>
        run (print "typedef struct {");;
        generate_struct_members self type TAB;;
        run (print ("} " +:+ typename (naming self) type +:+ ";"));;
        run (generate_struct_asserts self type raw_members l)
    | _ => fail UnknownClassOfType
    end;;
    run (print "").

(** ** CSyscallsGenerator *)

(** [syscall_params]: the declarations of the parameters, the input members
    by value and the output members through a pointer. *)
Definition syscall_params (naming : CNaming) (syscall : Syscall)
    : list string :=
  map (λ p, vardecl naming (param_type p) (param_name p) false)
    (input syscall) ++
  map (λ p, vardecl naming (PointerType (param_type p) false) (param_name p)
              false)
    (output syscall).

(** [generate_syscall] ends some of its [print]s with the empty string, so
    what it writes is kept as the pieces of text written to the standard
    output, in order: [print(s, end='')] writes [s], and [print(s)] writes
    [s] and a newline. *)
Definition write (s : string) : Gen unit := ([s], inr tt).
Definition write_line (s : string) : Gen unit := write (s +:+ NL).

(** A computation that prints lines, as one that writes pieces of text. *)
Definition written {A} (g : Gen A) : Gen A :=
  (map (λ line, line +:+ NL) g.1, g.2).

(** The text on the standard output. *)
Definition text {A} (g : Gen A) : string := foldr String.append "" g.1.

(** [params[:-1]] and [params[-1]] of a list that is not empty. *)
Definition but_last (l : list string) : list string := removelast l.
Definition last_of (l : list string) : string := List.last l "".

(** Modelled from the spec: [UserDefinedType('errno')], the error-code
    type.  abi.py is not among the sources; the layout that its constructor
    gives to the type is the parameter [errno_layout]. *)
Definition errno_type (errno_layout : Layout) : abi_type :=
  UserDefinedType "errno" errno_layout.

(** [generate_syscall] of a generator with the given naming policy, whose
    method [generate_syscall_body] is the argument of the same name. *)
Definition generate_syscall (naming : CNaming) (errno_layout : Layout)
    (generate_syscall_body : Syscall → Gen unit) (syscall : Syscall)
    : Gen unit :=
  let '(noreturn, return_type) :=
    if noreturn syscall then ("_Noreturn ", VoidType)
    else ("", errno_type errno_layout) in
  write_line ("static inline " +:+ noreturn +:+ typename naming return_type);;
  write (syscallname naming syscall +:+ "(");;
  let params := syscall_params naming syscall in
  (if decide (params = []) then write "void"
   else
     write_line "";;
     for_each (but_last params) (λ p, write_line (TAB +:+ p +:+ ","));;
     write_line (TAB +:+ last_of params));;
  write ")";;
  written (generate_syscall_body syscall);;
  write_line "".

(** [CSyscallsGenerator.generate_syscall_body], which ends the prototype. *)
Definition generate_prototype_body (syscall : Syscall) : Gen unit :=
  print ";".

(** * Properties *)

(** ** Strings *)

Lemma string_app_cons (c : ascii) (s t : string) :
  String c s +:+ t = String c (s +:+ t).
Proof. reflexivity. Qed.

Lemma string_app_assoc (s t u : string) : (s +:+ t) +:+ u = s +:+ (t +:+ u).
Proof.
  induction s as [|c s IH]; [done|]. by rewrite !string_app_cons, IH.
Qed.

Lemma string_app_length (s t : string) :
  String.length (s +:+ t) = (String.length s + String.length t)%nat.
Proof.
  induction s as [|c s IH]; [done|]. rewrite string_app_cons. simpl.
  by rewrite IH.
Qed.

Lemma spaces_length (n : nat) : String.length (Py.spaces n) = n.
Proof. induction n; simpl; congruence. Qed.

Lemma zeros_length (n : nat) : String.length (Py.zeros n) = n.
Proof. induction n; simpl; congruence. Qed.

(** ** The output monad *)

Lemma bind_ret {A B} (a : A) (f : A → Gen B) : mret a ≫= f = f a.
Proof. unfold mret, mbind, Gen_ret, Gen_bind. by destruct (f a). Qed.

Lemma bind_print {B} (s : string) (f : unit → Gen B) :
  print s ≫= f = (s :: (f tt).1, (f tt).2).
Proof. unfold print, mbind, Gen_bind. by destruct (f tt). Qed.

Lemma bind_lift_inr {A B} (a : A) (f : A → Gen B) : lift (inr a) ≫= f = f a.
Proof. apply bind_ret. Qed.

Lemma bind_pair {A B} (out : list string) (r : exn + A) (f : A → Gen B) :
  (out, r) ≫= f =
  match r with
  | inl e => (out, inl e)
  | inr a => (out ++ (f a).1, (f a).2)
  end.
Proof. unfold mbind, Gen_bind. destruct r; [done|]. by destruct (f _). Qed.

Lemma bind_assoc {A B C} (m : Gen A) (f : A → Gen B) (g : B → Gen C) :
  (m ≫= f) ≫= g = m ≫= (λ a, f a ≫= g).
Proof.
  unfold mbind, Gen_bind. destruct m as [out [e|a]]; [done|].
  destruct (f a) as [out' [e|b]]; [done|].
  destruct (g b) as [out'' r]. by rewrite app_assoc.
Qed.


(** Runs the leading prints and returns of a computation. *)
Ltac gen_steps :=
  repeat (rewrite ?bind_assoc, ?bind_print, ?bind_ret; cbn [fst snd]).


Lemma for_each_cons {A} (x : A) (l : list A) (body : A → Gen unit) :
  for_each (x :: l) body = (body x;; for_each l body).
Proof. reflexivity. Qed.


(** ** CNaming: the equations of the source *)

Lemma typename_eq (self : CNaming) (type : abi_type) :
  typename self type =
  match type with
  | AtomicType target_type =>
      if c11 self then "_Atomic(" +:+ typename self target_type +:+ ")"
      else typename self target_type
  | PointerType _ _ | ArrayType _ _ => vardecl self type "" false
  | _ => typename_plain self type
  end.
Proof. by destruct type. Qed.

(** C7.  [vardecl] on a pointer type declares the target with the name
    rewritten to [*name] and the parenthesization flag set, and prepends
    [const ] when the pointer is const-qualified; on an array type it wraps
    the name in parentheses exactly when the flag is set and declares the
    element type with the name rewritten to [name[count]]; on any other type
    it renders the type's name, a space and the variable name. *)
Theorem vardecl_eq (self : CNaming) (type : abi_type) (name : string)
    (array_need_parens : bool) :
  vardecl self type name array_need_parens =
  match type with
  | PointerType target_type const =>
      (if const then "const " else "") +:+
      vardecl self target_type ("*" +:+ name) true
  | ArrayType count element_type =>
      vardecl self element_type
        ((if array_need_parens then "(" +:+ name +:+ ")" else name) +:+
         "[" +:+ Py.str count +:+ "]") false
  | _ => typename self type +:+ " " +:+ name
  end.
Proof.
  destruct type as [| | | | | | |target []|]; try reflexivity.
Qed.

Example vardecl_pointer_to_array :
  vardecl {| prefix := "cloudabi_"; md_prefix := None; c11 := true |}
    (PointerType (ArrayType 4 int_type_char) true) "buf" false
  = "const char (*buf)[4]".
Proof. reflexivity. Qed.

Example vardecl_array_of_pointers :
  vardecl {| prefix := "cloudabi_"; md_prefix := None; c11 := true |}
    (ArrayType 4 (PointerType (AtomicType int_type_uint64) false)) "v" false
  = "_Atomic(uint64_t) *v[4]".
Proof. reflexivity. Qed.

Example typename_void_pointer (self : CNaming) :
  typename self PointerType_default = "void *".
Proof. reflexivity. Qed.

(** ** The cast rule *)

Lemma typename_pointer_to_plain (self : CNaming) (type : abi_type) :
  match type with
  | PointerType _ _ | ArrayType _ _ => False
  | _ => True
  end →
  typename self (PointerType type false) = typename self type +:+ " *".
Proof. destruct type; intros H; try done. Qed.

Lemma ccast_struct_side (self : CSyscallsImplGenerator)
    (type_from type_to : abi_type) (lf lt : Layout) (name : string) :
  is_StructType type_from || is_StructType type_to = true →
  layout type_from = Some lf → layout type_to = Some lt →
  _ccast self type_from type_to name =
  if decide (layout_size lf = layout_size lt)
  then inr ("*(" +:+ typename (impl_naming self) (PointerType type_to false)
            +:+ ")&" +:+ name)
  else inl CastException.
Proof.
  intros Hs Hf Ht. unfold _ccast, size_of. rewrite Hs, Hf, Ht.
  by repeat case_decide.
Qed.

Lemma ccast_plain (self : CSyscallsImplGenerator)
    (type_from type_to : abi_type) (name : string) :
  is_StructType type_from = false → is_StructType type_to = false →
  _ccast self type_from type_to name =
    inr ("(" +:+ typename (impl_naming self) type_to +:+ ")" +:+ name).
Proof. intros Hf Ht. unfold _ccast. by rewrite Hf, Ht. Qed.

(** C3.  A cast between a struct type and the register integer type, in
    either direction, fails when the layout sizes differ; when they are
    equal it is rendered as a dereferenced pointer reinterpretation: a star,
    the target type's name followed by a star in parentheses, an ampersand
    and the name.  A cast where neither side is a struct type is rendered
    as the target type's name in parentheses followed by the name. *)
Theorem ccast_spec (self : CSyscallsImplGenerator) (name : string) :
  (∀ sname sl raw ms rname rl,
     let s := StructType sname sl raw ms in
     let r := IntType rname rl in
     (layout_size sl ≠ layout_size rl →
        _ccast self s r name = inl CastException ∧
        _ccast self r s name = inl CastException) ∧
     (layout_size sl = layout_size rl →
        _ccast self s r name =
          inr ("*(" +:+ typename (impl_naming self) r +:+ " *)&" +:+ name) ∧
        _ccast self r s name =
          inr ("*(" +:+ typename (impl_naming self) s +:+ " *)&" +:+ name)))
  ∧
  (∀ type_from type_to,
     is_StructType type_from = false → is_StructType type_to = false →
     _ccast self type_from type_to name =
       inr ("(" +:+ typename (impl_naming self) type_to +:+ ")" +:+ name)).
Proof.
  split.
  - intros sname sl raw ms rname rl s r.
    pose proof (ccast_struct_side self s r sl rl name eq_refl eq_refl eq_refl)
      as Hsr.
    pose proof (ccast_struct_side self r s rl sl name eq_refl eq_refl eq_refl)
      as Hrs.
    split; intros Hsize.
    + rewrite Hsr, Hrs. by rewrite !decide_False by congruence.
    + rewrite Hsr, Hrs. rewrite !decide_True by congruence.
      rewrite !typename_pointer_to_plain by done.
      by rewrite !string_app_assoc.
  - intros type_from type_to. apply ccast_plain.
Qed.

Definition example_naming : CNaming :=
  {| prefix := "cloudabi_"; md_prefix := None; c11 := true |}.

Definition example_struct (size : Z) : abi_type :=
  StructType "pair"
    {| layout_size := (size, size); layout_align := (4, 4);
       layout_machine_dep := false |} [] [].

Lemma ccast_spec_witness :
  _ccast (CSyscallsX86_64Generator example_naming)
    (example_struct 12) int_type_uint64 "v" = inl CastException
  ∧ _ccast (CSyscallsX86_64Generator example_naming)
      int_type_uint64 (example_struct 8) "reg_rax"
    = inr "*(cloudabi_pair_t *)&reg_rax"
  ∧ _ccast (CSyscallsX86_64Generator example_naming)
      (PointerType int_type_char true) int_type_uint64 "path"
    = inr "(uint64_t)path".
Proof.
  pose proof (ccast_spec (CSyscallsX86_64Generator example_naming)) as H.
  split; [|split].
  - destruct (H "v") as [Hs _].
    destruct (Hs "pair" {| layout_size := (12, 12); layout_align := (4, 4);
                           layout_machine_dep := false |} [] [] "uint64"
                 {| layout_size := (8, 8); layout_align := (8, 8);
                    layout_machine_dep := false |}) as [Hne _].
    apply Hne. simpl. discriminate.
  - destruct (H "reg_rax") as [Hs _].
    destruct (Hs "pair" {| layout_size := (8, 8); layout_align := (4, 4);
                           layout_machine_dep := false |} [] [] "uint64"
                 {| layout_size := (8, 8); layout_align := (8, 8);
                    layout_machine_dep := false |}) as [_ Heq].
    apply Heq. reflexivity.
  - destruct (H "path") as [_ Hp]. apply Hp; reflexivity.
Defined.

(** ** Layout assertions *)

Lemma md_type_size_in_None (self : CGenerator) (sizes : list (Z * Z)) :
  md_type self = None → md_type_size_in self sizes = mret false.
Proof. unfold md_type_size_in. by intros ->. Qed.

Lemma md_type_size_in_Some (self : CGenerator) (sizes : list (Z * Z))
    (t : abi_type) (s : Z * Z) :
  md_type self = Some t → size_of t = inr s →
  md_type_size_in self sizes = mret (bool_decide (s ∈ sizes)).
Proof.
  unfold md_type_size_in. intros -> ->. by rewrite bind_lift_inr.
Qed.

(** The two guarded assertions of the dual-width case. *)
Definition guarded_asserts (expression : string) (value : Z * Z)
    : list string :=
  [static_assert ("sizeof(void *) != 4 || " +:+ expression +:+ " == " +:+
                  Py.str value.1);
   static_assert ("sizeof(void *) != 8 || " +:+ expression +:+ " == " +:+
                  Py.str value.2)].

(** The single assertion against one value. *)
Definition unguarded_assert (expression : string) (v : Z) : list string :=
  [static_assert (expression +:+ " == " +:+ Py.str v)].


Definition example_generator (md : option abi_type) : CGenerator :=
  {| naming := example_naming; header_guard := None; machine_dep := None;
     md_type := md; preamble := "" |}.

Definition int_type_uint32 : abi_type :=
  IntType "uint32" {| layout_size := (4, 4); layout_align := (4, 4);
                      layout_machine_dep := false |}.


(** ** Offset assertions of nested variant members *)















Definition example_layout (s32 s64 : Z) : Layout :=
  {| layout_size := (s32, s64); layout_align := (s32, s64);
     layout_machine_dep := negb (bool_decide (s32 = s64)) |}.



(** The struct [{a: uint32 at (0, 0), b: pointer to void at (4, 8)}] of
    size (8, 16) and alignment (4, 8). *)
Example generate_struct_asserts_example :
  generate_struct_asserts (example_generator None)
    (StructType "pair" (example_layout 8 16) [] [])
    [SimpleStructMember "a" int_type_uint32 (Some (0, 0));
     SimpleStructMember "b" (PointerType VoidType false) (Some (4, 8))]
    {| layout_size := (8, 16); layout_align := (4, 8);
       layout_machine_dep := true |}
  = (unguarded_assert "offsetof(cloudabi_pair_t, a)" 0 ++
     guarded_asserts "offsetof(cloudabi_pair_t, b)" (4, 8) ++
     guarded_asserts "sizeof(cloudabi_pair_t)" (8, 16) ++
     guarded_asserts "_Alignof(cloudabi_pair_t)" (4, 8), inr tt).
Proof. reflexivity. Qed.

(** ** Values of integer-like types *)

Lemma max_of_ge {A} (f : A → nat) (l : list A) (x : A) :
  x ∈ l → (f x ≤ Py.max_of f l)%nat.
Proof.
  unfold Py.max_of. induction 1 as [x l|x y l _ IH]; simpl; lia.
Qed.


Lemma size_nat_div2 (x : N) :
  (0 < x)%N → (N.size_nat (N.div2 x) < N.size_nat x)%nat.
Proof. destruct x as [|[p|p|]]; simpl; lia. Qed.

Lemma size_nat_div2_le (x : N) : (N.size_nat (N.div2 x) ≤ N.size_nat x)%nat.
Proof. destruct x as [|[p|p|]]; simpl; lia. Qed.

Lemma size_nat_div16 (x : N) :
  (0 < x)%N → (N.size_nat (x / 16) < N.size_nat x)%nat.
Proof.
  intros Hx.
  assert (x / 16 = N.div2 (N.div2 (N.div2 (N.div2 x))))%N as ->.
  { rewrite !N.div2_div, !N.Div0.div_div. done. }
  pose proof (size_nat_div2 x Hx).
  pose proof (size_nat_div2_le (N.div2 x)).
  pose proof (size_nat_div2_le (N.div2 (N.div2 x))).
  pose proof (size_nat_div2_le (N.div2 (N.div2 (N.div2 x)))).
  lia.
Qed.

Lemma hex_go_length (fuel : nat) :
  ∀ (x : N) (acc : string) (k : nat),
    (N.size_nat x ≤ fuel)%nat → (x < 16 ^ N.of_nat k)%N →
    (String.length (Py.hex_go fuel x acc) ≤ String.length acc + k)%nat.
Proof.
  induction fuel as [|fuel IH]; intros x acc k Hfuel Hk; simpl; [lia|].
  destruct (N.eqb_spec x 0) as [->|Hx]; [lia|].
  destruct k as [|k]; [simpl in Hk; lia|].
  pose proof (size_nat_div16 x ltac:(lia)).
  etrans; [apply (IH _ _ k); [lia|]|simpl; lia].
  apply N.Div0.div_lt_upper_bound.
  replace (16 * 16 ^ N.of_nat k)%N with (16 ^ N.of_nat (S k))%N; [done|].
  rewrite Nat2N.inj_succ, N.pow_succ_r'. done.
Qed.

Lemma hex_digits_length (x : N) (k : nat) :
  (0 < k)%nat → (x < 16 ^ N.of_nat k)%N →
  (String.length (Py.hex_digits x) ≤ k)%nat.
Proof.
  intros Hk Hx. unfold Py.hex_digits.
  destruct (N.eqb_spec x 0); [simpl; lia|].
  by apply (hex_go_length _ x "" k).
Qed.

(** The number that a string of hexadecimal digits denotes. *)
Definition hex_char_value (c : ascii) : N :=
  match c with
  | "0" => 0 | "1" => 1 | "2" => 2 | "3" => 3 | "4" => 4 | "5" => 5
  | "6" => 6 | "7" => 7 | "8" => 8 | "9" => 9 | "a" => 10 | "b" => 11
  | "c" => 12 | "d" => 13 | "e" => 14 | _ => 15
  end%char%N.

Fixpoint hex_value (s : string) : N :=
  match s with
  | EmptyString => 0
  | String c s' =>
      hex_char_value c * 16 ^ N.of_nat (String.length s') + hex_value s'
  end%N.

Lemma hex_char_value_char (d : N) :
  (d < 16)%N → hex_char_value (Py.hex_char d) = d.
Proof.
  intros Hd.
  assert (d ∈ [0; 1; 2; 3; 4; 5; 6; 7; 8; 9; 10; 11; 12; 13; 14; 15]%N) as Hin.
  { rewrite !elem_of_cons. lia. }
  rewrite !elem_of_cons, elem_of_nil in Hin.
  repeat (destruct Hin as [->|Hin]; [reflexivity|]). done.
Qed.

Lemma hex_go_value (fuel : nat) :
  ∀ (x : N) (acc : string),
    (N.size_nat x ≤ fuel)%nat →
    hex_value (Py.hex_go fuel x acc)
    = (x * 16 ^ N.of_nat (String.length acc) + hex_value acc)%N.
Proof.
  induction fuel as [|fuel IH]; intros x acc Hfuel; cbn [Py.hex_go].
  - destruct x; [done|]. destruct p; simpl in Hfuel; lia.
  - destruct (N.eqb_spec x 0) as [->|Hx]; [done|].
    pose proof (size_nat_div16 x ltac:(lia)).
    rewrite IH by lia. cbn [hex_value String.length].
    rewrite hex_char_value_char by (apply N.mod_lt; lia).
    rewrite Nat2N.inj_succ, N.pow_succ_r'.
    pose proof (N.div_mod x 16 ltac:(lia)) as Hdiv. nia.
Qed.

(** The digits of [hex_digits] denote the number. *)
Lemma hex_digits_value (x : N) : hex_value (Py.hex_digits x) = x.
Proof.
  unfold Py.hex_digits. destruct (N.eqb_spec x 0) as [->|Hx]; [done|].
  rewrite hex_go_value by done. simpl. lia.
Qed.

Example hex_digits_examples :
  Py.hex_digits 0 = "0" ∧ Py.hex_digits 10 = "a" ∧ Py.hex_digits 255 = "ff"
  ∧ Py.hex_digits 256 = "100" ∧ Py.hex_digits 4096 = "1000"
  ∧ Py.hex_digits 3735928559 = "deadbeef".
Proof. repeat split; reflexivity. Qed.

Example format_int_examples :
  Py.format_int (Py.Fmt_alt_zero_x 4) 1 = Some "0x01"
  ∧ Py.format_int (Py.Fmt_alt_zero_x 4) 0 = Some "0x00"
  ∧ Py.format_int (Py.Fmt_alt_zero_x 6) 4096 = Some "0x1000"
  ∧ Py.format_int (Py.Fmt_alt_zero_x 4) 256 = Some "0x100"
  ∧ Py.format_int (Py.Fmt_alt_zero_x 6) (-1) = Some "-0x001"
  ∧ Py.format_int (Py.Fmt_width_d 3) (-5) = Some " -5"
  ∧ Py.format_int (Py.Fmt_width_d 1) 12 = Some "12"
  ∧ Py.format_int Py.Fmt_d 0 = Some "0".
Proof. repeat split; reflexivity. Qed.

(** The text of the [#define] line of a value, given the rendering of its
    integer: the name is followed by spaces up to the width of the longest
    name. *)
Definition define_text (self : CGenerator) (cprefix : string)
    (values : list Value) (v : Value) (rendered : string) : string :=
  let width :=
    Py.max_of (λ v, String.length (valname (naming self) cprefix v)) values in
  "#define " +:+
  (valname (naming self) cprefix v +:+
   Py.spaces (width - String.length (valname (naming self) cprefix v)))
  +:+ " " +:+ rendered.

(** The [typedef] line of an integer-like type. *)
Definition typedef_text (self : CGenerator) (kind : IntLikeKind)
    (name : string) (l : Layout) (int_type : abi_type) (values : list Value)
    (cprefix : string) : string :=
  "typedef " +:+
  vardecl (naming self) int_type
    (typename (naming self)
       (IntLikeType kind name l int_type values cprefix)) false +:+ ";".

(** The type is not skipped by the [machine_dep] filter. *)
Definition selected (self : CGenerator) (l : Layout) : bool :=
  match machine_dep self with
  | Some md => Bool.eqb (layout_machine_dep l) md
  | None => true
  end.

Lemma define_line_Some (name : string) (width : nat) (val : Z)
    (fmt : Py.val_format) (rendered : string) :
  Py.format_int fmt val = Some rendered →
  define_line name width val fmt =
  print ("#define " +:+ Py.format_str width name +:+ " " +:+ rendered).
Proof. unfold define_line. by intros ->. Qed.

Lemma for_each_define_lines (self : CGenerator) (cprefix : string)
    (width : nat) (fmt : Py.val_format) (render : Value → string)
    (values : list Value) :
  (∀ v, v ∈ values → Py.format_int fmt (value v) = Some (render v)) →
  for_each values (λ v,
    define_line (valname (naming self) cprefix v) width (value v) fmt) =
  (map (λ v, "#define " +:+
             Py.format_str width (valname (naming self) cprefix v) +:+
             " " +:+ render v) values, inr tt).
Proof.
  induction values as [|v values IH]; intros Hfmt; [done|].
  rewrite for_each_cons.
  rewrite (define_line_Some _ _ _ _ (render v)) by (apply Hfmt; left).
  rewrite bind_print.
  rewrite IH; [done|]. intros v' Hv'. apply Hfmt. by right.
Qed.

Lemma generate_type_IntLike_lines (self : CGenerator) (kind : IntLikeKind)
    (name : string) (l : Layout) (int_type : abi_type) (values : list Value)
    (cprefix : string) (render : Value → string) :
  selected self l = true →
  (∀ v, v ∈ values →
     Py.format_int (val_format_of kind l values) (value v)
     = Some (render v)) →
  generate_type_IntLike self kind name l int_type values cprefix =
  (typedef_text self kind name l int_type values cprefix ::
   map (λ v, define_text self cprefix values v (render v)) values ++ [""],
   inr tt).
Proof.
  intros Hsel Hfmt. unfold generate_type_IntLike.
  replace (match machine_dep self with
           | Some md => negb (Bool.eqb (layout_machine_dep l) md)
           | None => false
           end) with false
    by (unfold selected in Hsel; destruct (machine_dep self); [by rewrite Hsel|done]).
  rewrite bind_print. fold (typedef_text self kind name l int_type values cprefix).
  case_decide as Hlen.
  - rewrite (for_each_define_lines _ _ _ _ render) by done.
    rewrite bind_pair. done.
  - destruct values; [|simpl in Hlen; lia]. by rewrite bind_ret.
Qed.

(** What [generate_type] prints for a selected integer-like type whose
    values are rendered by [render]. *)
Definition intlike_text (self : CGenerator) (kind : IntLikeKind)
    (name : string) (l : Layout) (int_type : abi_type) (values : list Value)
    (cprefix : string) (render : Value → string) : Gen unit :=
  (typedef_text self kind name l int_type values cprefix ::
   map (λ v, define_text self cprefix values v (render v)) values ++ [""],
   inr tt).

(** A signed decimal, right-aligned in [width] columns. *)
Definition decimal_right_aligned (width : nat) (v : Z) : string :=
  Py.spaces (width - String.length (Py.str v)) +:+ Py.str v.

(** Hexadecimal with the [0x] prefix, padded with zeros after the prefix to
    [width] columns in all. *)
Definition hex_zero_padded (width : nat) (v : Z) : string :=
  let lead := Py.sign_of v +:+ "0x" in
  let digits := Py.hex_digits (Z.abs_N v) in
  lead +:+
  Py.zeros (width - String.length lead - String.length digits) +:+ digits.

Lemma val_format_of_flags (kind : IntLikeKind) (l : Layout)
    (values : list Value) :
  kind ≠ EnumType → ¬ (∃ z, values = [z] ∧ value z = 0) →
  val_format_of kind l values = Py.Fmt_alt_zero_x ((layout_size l).1 * 2 + 2).
Proof.
  intros Hkind Hnot. unfold val_format_of.
  destruct kind; [done| |]; destruct values as [|z [|z' vs]]; try done;
    case_decide; try done; destruct Hnot; eauto.
Qed.

Lemma hex_zero_padded_length (width : nat) (v : Z) (size : Z) :
  0 < size → width = Z.to_nat (size * 2 + 2) → 0 ≤ v < 256 ^ size →
  String.length (hex_zero_padded width v) = width.
Proof.
  intros Hsize -> [Hv0 Hv]. unfold hex_zero_padded, Py.sign_of.
  destruct (Z.ltb_spec v 0) as [|_]; [lia|].
  pose proof (hex_digits_length (Z.abs_N v) (Z.to_nat (size * 2))) as Hlen.
  rewrite !string_app_length, zeros_length. cbn [String.length].
  assert (String.length (Py.hex_digits (Z.abs_N v)) ≤ Z.to_nat (size * 2))%nat.
  { apply Hlen; [lia|].
    apply N2Z.inj_lt. rewrite N2Z.inj_abs_N, Z.abs_eq by done.
    rewrite N2Z.inj_pow, nat_N_Z, Z2Nat.id by lia.
    change (Z.of_N 16) with 16.
    replace (16 ^ (size * 2)) with (256 ^ size); [done|].
    rewrite (Z.mul_comm size 2), Z.pow_mul_r by lia. done. }
  lia.
Qed.

(** C5.  For a selected integer-like type with values: the values of an
    enum are rendered as signed decimals, right-aligned to the width of the
    longest of them; the single value 0 of a flags or opaque type is
    rendered as the decimal 0; otherwise the values of a flags or opaque
    type are rendered as hexadecimal after [0x], padded with zeros to the
    width 2 * (32-bit byte size) + 2, the prefix included, which is the
    length of the rendering of every value that fits the byte size. *)
Theorem generate_type_IntLike_values (self : CGenerator) (kind : IntLikeKind)
    (name : string) (l : Layout) (int_type : abi_type) (values : list Value)
    (cprefix : string) :
  selected self l = true → values ≠ [] →
  let size := (layout_size l).1 in
  let val_width :=
    Py.max_of (λ v, String.length (Py.str (value v))) values in
  (kind = EnumType →
     generate_type_IntLike self kind name l int_type values cprefix =
       intlike_text self kind name l int_type values cprefix
         (λ v, decimal_right_aligned val_width (value v))
     ∧ ∀ v, v ∈ values →
         String.length (decimal_right_aligned val_width (value v))
         = val_width)
  ∧ (kind ≠ EnumType → (∃ z, values = [z] ∧ value z = 0) →
     generate_type_IntLike self kind name l int_type values cprefix =
       intlike_text self kind name l int_type values cprefix (λ _, "0"))
  ∧ (kind ≠ EnumType → ¬ (∃ z, values = [z] ∧ value z = 0) → 0 < size →
     generate_type_IntLike self kind name l int_type values cprefix =
       intlike_text self kind name l int_type values cprefix
         (λ v, hex_zero_padded (Z.to_nat (size * 2 + 2)) (value v))
     ∧ ∀ v, v ∈ values → 0 ≤ value v < 256 ^ size →
         String.length (hex_zero_padded (Z.to_nat (size * 2 + 2)) (value v))
         = Z.to_nat (size * 2 + 2)).
Proof.
  intros Hsel Hne size val_width. split; [|split].
  - intros ->. split; [by apply generate_type_IntLike_lines|].
    intros v Hv. unfold decimal_right_aligned.
    rewrite string_app_length, spaces_length.
    pose proof (max_of_ge (λ v, String.length (Py.str (value v))) values v Hv)
      as Hmax.
    fold val_width in Hmax. simpl in Hmax. lia.
  - intros Hkind (z & -> & Hz). apply generate_type_IntLike_lines; [done|].
    intros v Hv. apply list_elem_of_singleton in Hv as ->.
    unfold val_format_of. destruct kind; [done|..];
      by rewrite decide_True, Hz by done.
  - intros Hkind Hnot Hsize. split.
    + apply generate_type_IntLike_lines; [done|].
      intros v _. rewrite val_format_of_flags by done.
      unfold Py.format_int. fold size.
      destruct (Z.ltb_spec (size * 2 + 2) 0); [lia|done].
    + intros v Hv Hfit. by apply (hex_zero_padded_length _ _ size).
Qed.

Definition int_type_uint8 : abi_type := IntType "uint8" (example_layout 1 1).

Definition example_flags : list Value :=
  [{| value_name := "a"; value := 1 |}; {| value_name := "bb"; value := 2 |}].

Lemma generate_type_IntLike_values_witness :
  printed (generate_type_IntLike (example_generator None) EnumType "whence"
             (example_layout 1 1) int_type_uint8
             [{| value_name := "cur"; value := -1 |};
              {| value_name := "end"; value := 10 |}] "whence_")
  = ["typedef uint8_t cloudabi_whence_t;";
     "#define CLOUDABI_WHENCE_CUR -1";
     "#define CLOUDABI_WHENCE_END 10"; ""]
  ∧ printed (generate_type_IntLike (example_generator None) OpaqueType "fd"
               (example_layout 4 4) int_type_uint32
               [{| value_name := "none"; value := 0 |}] "fd_")
    = ["typedef uint32_t cloudabi_fd_t;"; "#define CLOUDABI_FD_NONE 0"; ""]
  ∧ printed (generate_type_IntLike (example_generator None) FlagsType "right"
               (example_layout 1 1) int_type_uint8 example_flags "right_")
    = ["typedef uint8_t cloudabi_right_t;";
       "#define CLOUDABI_RIGHT_A  0x01";
       "#define CLOUDABI_RIGHT_BB 0x02"; ""]
  ∧ String.length (hex_zero_padded (Z.to_nat (1 * 2 + 2)) 2) = 4%nat.
Proof.
  split; [|split; [|split]].
  - destruct (generate_type_IntLike_values (example_generator None) EnumType
                "whence" (example_layout 1 1) int_type_uint8
                [{| value_name := "cur"; value := -1 |};
                 {| value_name := "end"; value := 10 |}] "whence_")
      as ((H & _) & _); [reflexivity|discriminate|reflexivity|].
    rewrite H. reflexivity.
  - destruct (generate_type_IntLike_values (example_generator None)
                OpaqueType "fd" (example_layout 4 4) int_type_uint32
                [{| value_name := "none"; value := 0 |}] "fd_")
      as (_ & H & _); [reflexivity|discriminate|].
    rewrite H; [reflexivity|discriminate|]. eexists. split; reflexivity.
  - destruct (generate_type_IntLike_values (example_generator None)
                FlagsType "right" (example_layout 1 1) int_type_uint8
                example_flags "right_")
      as (_ & _ & H); [reflexivity|discriminate|].
    destruct H as [H _]; [discriminate| |reflexivity|].
    + intros (z & Hz & _). discriminate Hz.
    + rewrite H. reflexivity.
  - destruct (generate_type_IntLike_values (example_generator None)
                FlagsType "right" (example_layout 1 1) int_type_uint8
                example_flags "right_")
      as (_ & _ & H); [reflexivity|discriminate|].
    destruct H as [_ H]; [discriminate| |reflexivity|].
    + intros (z & Hz & _). discriminate Hz.
    + apply (H {| value_name := "bb"; value := 2 |}).
      * right. left.
      * simpl. lia.
Defined.





(** ** Reasoning about generators *)

(** [post g Φ Ψ]: when [g] returns [a] after printing [out], [Φ out a]
    holds; when it fails with [e], [Ψ e] holds. *)
Definition post {A} (g : Gen A) (Φ : list string → A → Prop)
    (Ψ : exn → Prop) : Prop :=
  match g with
  | (out, inr a) => Φ out a
  | (_, inl e) => Ψ e
  end.

Lemma post_ret {A} (a : A) (Φ : list string → A → Prop) (Ψ : exn → Prop) :
  Φ [] a → post (mret a) Φ Ψ.
Proof. done. Qed.

Lemma post_print (s : string) (Φ : list string → unit → Prop)
    (Ψ : exn → Prop) :
  Φ [s] tt → post (print s) Φ Ψ.
Proof. done. Qed.

Lemma post_raise {A} (e : exn) (Φ : list string → A → Prop)
    (Ψ : exn → Prop) :
  Ψ e → post (raise e) Φ Ψ.
Proof. done. Qed.

Lemma post_bind {A B} (m : Gen A) (f : A → Gen B)
    (Φ : list string → B → Prop) (Ψ : exn → Prop) :
  post m (λ out a, post (f a) (λ out' b, Φ (out ++ out') b) Ψ) Ψ →
  post (m ≫= f) Φ Ψ.
Proof.
  destruct m as [out [e|a]]; [done|]. unfold post at 1.
  rewrite bind_pair. by destruct (f a) as [out' [e|b]].
Qed.

Lemma post_mono {A} (g : Gen A) (Φ Φ' : list string → A → Prop)
    (Ψ Ψ' : exn → Prop) :
  post g Φ Ψ → (∀ out a, Φ out a → Φ' out a) → (∀ e, Ψ e → Ψ' e) →
  post g Φ' Ψ'.
Proof. destruct g as [out [e|a]]; simpl; auto. Qed.

(** The rule of a loop with local state: [I i out s] is the invariant
    before iteration [i], on what the loop has printed and on the state. *)
Lemma post_for_fold {A S} (l : list A) (body : S → A → Gen S)
    (I : nat → list string → S → Prop) (Ψ : exn → Prop) (s : S) :
  I 0%nat [] s →
  (∀ i x out s, l !! i = Some x → I i out s →
     post (body s x) (λ out' s', I (Datatypes.S i) (out ++ out') s') Ψ) →
  post (for_fold l s body) (λ out s', I (length l) out s') Ψ.
Proof.
  revert I s. induction l as [|x l IH]; intros I s H0 Hstep.
  - by apply post_ret.
  - cbn [for_fold]. apply post_bind.
    eapply post_mono; [apply (Hstep 0%nat x [] s eq_refl H0)| |done].
    intros out s' Hs'. cbn beta in Hs'.
    apply (IH (λ i out' s'', I (Datatypes.S i) (out ++ out') s'')).
    + by rewrite app_nil_r.
    + intros i y out' s'' Hy Hi.
      eapply post_mono; [apply (Hstep (Datatypes.S i) y _ s'' Hy Hi)| |done].
      intros out'' s''' H. cbn beta. by rewrite app_assoc.
Qed.

Lemma post_for_each {A} (l : list A) (body : A → Gen unit)
    (I : nat → list string → Prop) (Ψ : exn → Prop) :
  I 0%nat [] →
  (∀ i x out, l !! i = Some x → I i out →
     post (body x) (λ out' _, I (Datatypes.S i) (out ++ out')) Ψ) →
  post (for_each l body) (λ out _, I (length l) out) Ψ.
Proof.
  revert I. induction l as [|x l IH]; intros I H0 Hstep.
  - by apply post_ret.
  - rewrite for_each_cons. apply post_bind.
    eapply post_mono; [apply (Hstep 0%nat x [] eq_refl H0)| |done].
    intros out [] Hs'. cbn beta in Hs'.
    apply (IH (λ i out', I (Datatypes.S i) (out ++ out'))).
    + by rewrite app_nil_r.
    + intros i y out' Hy Hi.
      eapply post_mono; [apply (Hstep (Datatypes.S i) y _ Hy Hi)| |done].
      intros out'' u H. cbn beta in *. by rewrite app_assoc.
Qed.

Lemma lookup_enumerate {A} (l : list A) (i j : nat) (x : A) :
  enumerate l !! i = Some (j, x) ↔ j = i ∧ l !! i = Some x.
Proof.
  unfold enumerate. rewrite lookup_zip_with_Some. split.
  - intros (j' & x' & [= <- <-] & Hj & Hx).
    apply lookup_seq in Hj as [-> _]. done.
  - intros [-> Hx]. exists i, x. split; [done|]. split; [|done].
    apply lookup_seq. split; [done|]. by apply lookup_lt_Some in Hx.
Qed.

Lemma length_enumerate {A} (l : list A) : length (enumerate l) = length l.
Proof.
  unfold enumerate. rewrite length_zip_with, length_seq. lia.
Qed.

(** ** Register declarations *)

(** The lines of a list of declarations: register and initializer text. *)
Definition register_decl_lines (self : CSyscallsImplGenerator)
    (decls : list (string * string)) : list string :=
  map (λ d, register_line self d.1 d.2) decls.

(** [out] declares the registers of [decls], one line each and no register
    twice, and [defined_regs] is the set of these registers. *)
Definition declared (self : CSyscallsImplGenerator)
    (decls : list (string * string)) (out : list string)
    (defined_regs : gset string) : Prop :=
  out = register_decl_lines self decls ∧ NoDup decls.*1 ∧
  defined_regs = list_to_set decls.*1.

(** The cast of an input member into the register type. *)
Definition input_cast (self : CSyscallsImplGenerator) (p : Param)
    : exn + string :=
  _ccast self (param_type p) (register_t self) (param_name p).

(** The cast of the register of an output member back into its type. *)
Definition output_cast (self : CSyscallsImplGenerator) (register : string)
    (p : Param) : exn + string :=
  _ccast self (register_t self) (param_type p) ("reg_" +:+ register).

Lemma declared_snoc (self : CSyscallsImplGenerator)
    (decls : list (string * string)) (out : list string)
    (defined_regs : gset string) (register defn : string) :
  declared self decls out defined_regs → register ∉ defined_regs →
  declared self (decls ++ [(register, defn)])
    (out ++ [register_line self register defn])
    ({[register]} ∪ defined_regs).
Proof.
  intros (-> & Hnd & ->) Hr. unfold declared, register_decl_lines.
  rewrite map_app, fmap_app. cbn [map fmap list_fmap fst snd].
  split; [done|]. split.
  - apply NoDup_app. split; [done|]. split; [|apply NoDup_singleton].
    intros x Hx ->%list_elem_of_singleton.
    by apply Hr, elem_of_list_to_set.
  - rewrite list_to_set_snoc_L. apply (comm_L (∪)).
Qed.

Lemma define_reg_Some_post (self : CSyscallsImplGenerator)
    (decls : list (string * string)) (out : list string)
    (defined_regs : gset string) (register v : string) :
  declared self decls out defined_regs →
  post (define_reg self defined_regs register (Some v))
    (λ out' defined_regs',
       (register ∉ defined_regs) ∧
       declared self (decls ++ [(register, " = " +:+ v)]) (out ++ out')
         defined_regs')
    (λ e, e = AssertionError ∧ register ∈ defined_regs).
Proof.
  intros Hd. unfold define_reg. case_decide as Hr.
  - by apply post_raise.
  - rewrite bind_print. simpl. split; [done|]. by apply declared_snoc.
Qed.

Lemma define_reg_None_post (self : CSyscallsImplGenerator)
    (decls : list (string * string)) (out : list string)
    (defined_regs : gset string) (register : string) :
  declared self decls out defined_regs →
  post (define_reg self defined_regs register None)
    (λ out' defined_regs',
       ∃ decls', declared self decls' (out ++ out') defined_regs' ∧
                 ∀ r, r ∈ decls'.*1 ↔ r ∈ decls.*1 ∨ r = register)
    (λ _, False).
Proof.
  intros Hd. unfold define_reg. case_decide as Hr.
  - apply post_ret. exists decls. rewrite app_nil_r. split; [done|].
    intros r. destruct Hd as (_ & _ & ->).
    apply elem_of_list_to_set in Hr.
    split; [by left|by intros [?| ->]].
  - rewrite bind_print. simpl. exists (decls ++ [(register, "")]).
    split; [by apply declared_snoc|].
    intros r. rewrite fmap_app, elem_of_app. simpl.
    by rewrite list_elem_of_singleton.
Qed.

(** Why the register declarations can fail: a register list is too short,
    the number register or an input register would be declared twice, or
    the cast of an input member fails. *)
Definition declare_failure (self : CSyscallsImplGenerator) (syscall : Syscall)
    (e : exn) : Prop :=
  (e = IndexError ∧
   (length (input_registers self) < length (input syscall) ∨
    length (output_registers self) < length (output syscall))%nat)
  ∨ (e = AssertionError ∧
     ¬ NoDup (syscall_num_register self ::
              take (length (input syscall)) (input_registers self)))
  ∨ (∃ p, p ∈ input syscall ∧ input_cast self p = inl e).

(** The registers that the lowering of a syscall uses. *)
Definition used_registers (self : CSyscallsImplGenerator) (syscall : Syscall)
    (r : string) : Prop :=
  r = syscall_num_register self
  ∨ r ∈ take (length (input syscall)) (input_registers self)
  ∨ r ∈ take (length (output syscall)) (output_registers self)
  ∨ r = errno_register self.

(** When the register declarations succeed. *)
Definition declarable (self : CSyscallsImplGenerator) (syscall : Syscall)
    : Prop :=
  (length (input syscall) ≤ length (input_registers self))%nat
  ∧ (length (output syscall) ≤ length (output_registers self))%nat
  ∧ NoDup (syscall_num_register self ::
           take (length (input syscall)) (input_registers self))
  ∧ ∀ p, p ∈ input syscall → ∃ v, input_cast self p = inr v.

Lemma NoDup_take_lookup (num : string) (regs : list string) (n i : nat)
    (r : string) :
  NoDup (num :: take n regs) → (i < n)%nat → regs !! i = Some r →
  r ∉ num :: take i regs.
Proof.
  intros [Hnum Hnd]%NoDup_cons Hi Hr [->|Hin]%elem_of_cons.
  - apply Hnum, elem_of_take. eauto.
  - apply elem_of_take in Hin as (j & Hj & Hji).
    assert (i = j); [|lia].
    apply (NoDup_lookup (take n regs) i j r Hnd).
    + by rewrite lookup_take_lt.
    + rewrite lookup_take_lt by lia. done.
Qed.

Lemma declare_registers_post (self : CSyscallsImplGenerator)
    (syscall : Syscall) :
  post (declare_registers self syscall)
    (λ out defined_regs,
       ∃ decls, declared self decls out defined_regs
                ∧ (∀ r, r ∈ decls.*1 ↔ used_registers self syscall r)
                ∧ declarable self syscall)
    (declare_failure self syscall).
Proof.
  unfold declare_registers.
  set (N := length (input syscall)). set (M := length (output syscall)).
  apply post_bind.
  eapply post_mono;
    [apply (define_reg_Some_post self [] []); by repeat split; try constructor
    | |by intros e [_ ?%not_elem_of_empty]].
  intros out1 d1 [_ Hd1]. rewrite !app_nil_l in Hd1. apply post_bind.
  eapply post_mono;
    [apply (post_for_fold _ _
       (λ i out d,
          ∃ decls, declared self decls (out1 ++ out) d
                   ∧ decls.*1 = syscall_num_register self ::
                                take i (input_registers self)
                   ∧ (i ≤ length (input_registers self))%nat
                   ∧ ∀ j p, (j < i)%nat → input syscall !! j = Some p →
                            ∃ v, input_cast self p = inr v)
       (declare_failure self syscall))| |done].
  { eexists. rewrite app_nil_r. split; [exact Hd1|].
    split; [by rewrite take_0|]. split; [lia|]. intros j p Hj. lia. }
  { intros i [j p] out d [-> Hp]%lookup_enumerate
      (decls & Hd & Hregs & Hi & Hcasts).
    pose proof (lookup_lt_Some _ _ _ Hp) as HiN. fold N in HiN.
    cbn [fst snd]. apply post_bind. unfold index.
    destruct (input_registers self !! i) as [r|] eqn:Hr.
    - apply post_ret. apply post_bind. fold (input_cast self p).
      destruct (input_cast self p) as [e|v] eqn:Hcast.
      + apply post_raise. right. right. exists p.
        split; [by eapply list_elem_of_lookup_2|done].
      + apply (post_ret v).
        eapply post_mono; [by apply define_reg_Some_post| |].
        * intros out' d' [Hfresh Hd']. rewrite !app_nil_l.
          eexists. rewrite app_assoc. split; [exact Hd'|].
          rewrite fmap_app, Hregs. cbn [fmap list_fmap fst].
          rewrite (take_S_r _ _ _ Hr). split; [done|].
          split; [by apply lookup_lt_Some in Hr|].
          intros j q Hj Hq. destruct (decide (j = i)) as [->|].
          { rewrite Hp in Hq. injection Hq as <-. eauto. }
          apply (Hcasts j q); [lia|done].
        * intros e [-> Hin]. right. left. split; [done|]. intros Hnd.
          destruct Hd as (_ & _ & ->). apply elem_of_list_to_set in Hin.
          rewrite Hregs in Hin.
          by apply (NoDup_take_lookup _ _ N i r Hnd HiN Hr).
    - apply post_raise. left. split; [done|]. left.
      apply lookup_ge_None_1 in Hr. fold N. lia. }
  intros out2 d2 (decls2 & Hd2 & Hregs2 & HN & Hcasts).
  rewrite length_enumerate in Hregs2, HN, Hcasts. fold N in Hregs2, HN, Hcasts.
  apply post_bind.
  eapply post_mono;
    [apply (post_for_fold _ _
       (λ i out d,
          ∃ decls, declared self decls ((out1 ++ out2) ++ out) d
                   ∧ (∀ r, r ∈ decls.*1 ↔
                           r = syscall_num_register self
                           ∨ r ∈ take N (input_registers self)
                           ∨ r ∈ take i (output_registers self))
                   ∧ (i ≤ length (output_registers self))%nat)
       (declare_failure self syscall))| |done].
  { exists decls2. rewrite app_nil_r. split; [done|]. split; [|lia].
    intros r. rewrite Hregs2, take_0, elem_of_cons, elem_of_nil. tauto. }
  { intros i x out d [-> Hi]%lookup_seq (decls & Hd & Hmem & HiM).
    cbn [Nat.add]. apply post_bind. unfold index.
    destruct (output_registers self !! i) as [r|] eqn:Hr.
    - apply post_ret.
      eapply post_mono; [by apply define_reg_None_post| |done].
      intros out' d' (decls' & Hd' & Hmem'). rewrite !app_nil_l.
      exists decls'. rewrite app_assoc. split; [exact Hd'|].
      split; [|by apply lookup_lt_Some in Hr].
      intros r'. rewrite Hmem', Hmem, (take_S_r _ _ _ Hr), elem_of_app.
      rewrite list_elem_of_singleton. tauto.
    - apply post_raise. left. split; [done|]. right.
      apply lookup_ge_None_1 in Hr. fold M. lia. }
  intros out3 d3 (decls3 & Hd3 & Hmem3 & HM). rewrite length_seq in Hmem3, HM.
  eapply post_mono; [by apply define_reg_None_post| |done].
  intros out4 d4 (decls4 & Hd4 & Hmem4).
  exists decls4. rewrite <- !app_assoc in Hd4. split; [exact Hd4|]. split.
  - intros r. rewrite Hmem4, Hmem3. unfold used_registers. fold N M. tauto.
  - split; [done|]. split; [done|]. split.
    + fold N. rewrite <- Hregs2. by destruct Hd2 as (_ & ? & _).
    + intros p [j Hj]%list_elem_of_lookup_1.
      apply (Hcasts j p); [|done]. by apply lookup_lt_Some in Hj.
Qed.

Lemma declarable_not_failure (self : CSyscallsImplGenerator)
    (syscall : Syscall) (e : exn) :
  declarable self syscall → ¬ declare_failure self syscall e.
Proof.
  intros (HN & HM & Hnd & Hcasts) [[_ [?|?]]|[[_ ?]|(p & Hp & Hcast)]];
    [lia|lia|done|].
  destruct (Hcasts p Hp) as [v Hv]. congruence.
Qed.

Lemma declare_registers_declarable (self : CSyscallsImplGenerator)
    (syscall : Syscall) :
  declarable self syscall →
  ∃ out defined_regs,
    declare_registers self syscall = (out, inr defined_regs).
Proof.
  intros Hok. pose proof (declare_registers_post self syscall) as H.
  destruct (declare_registers self syscall) as [out [e|d]]; [|eauto].
  by destruct (declarable_not_failure self syscall e).
Qed.

(** The declaration of the status variable. *)
Definition okay_line (self : CSyscallsImplGenerator) : string :=
  TAB +:+ "register " +:+
  vardecl (impl_naming self) (okay_t self) "okay" false +:+ ";".

(** What [generate_syscall_body] does after the register declarations. *)
Definition body_after_declarations (self : CSyscallsImplGenerator)
    (syscall : Syscall) : Gen unit :=
  let check_okay := bool_decide (0 < length (output syscall))%nat in
  (if check_okay then print (okay_line self) else mret tt);;
  print (TAB +:+ "asm volatile (");;
  print (asm self);;
  (if check_okay then print (asm_check self) else mret tt);;
  output_operands self syscall check_okay;;
  input_operands self syscall;;
  print (TAB +:+ TAB +:+ ": " +:+ clobbers self +:+ ");");;
  (if check_okay then write_back self syscall else mret tt);;
  (if noreturn syscall then print (TAB +:+ "for (;;);")
   else print (TAB +:+ "return reg_" +:+ errno_register self +:+ ";"));;
  print "}".

Lemma generate_syscall_body_eq (self : CSyscallsImplGenerator)
    (syscall : Syscall) :
  generate_syscall_body self syscall =
  (print " {";;
   _ ← declare_registers self syscall;
   body_after_declarations self syscall).
Proof. reflexivity. Qed.

Lemma bind_inr_inv {A B} (m : Gen A) (f : A → Gen B) (out : list string)
    (b : B) :
  m ≫= f = (out, inr b) →
  ∃ out1 a out2, m = (out1, inr a) ∧ f a = (out2, inr b) ∧ out = out1 ++ out2.
Proof.
  destruct m as [out1 [e|a]]; [done|]. rewrite bind_pair.
  destruct (f a) as [out2 r] eqn:Hf. simpl. intros [= <- ->]. eauto 10.
Qed.

Lemma body_after_declarations_head (self : CSyscallsImplGenerator)
    (syscall : Syscall) :
  ∃ rest,
    printed (body_after_declarations self syscall) =
    (if bool_decide (0 < length (output syscall))%nat
     then [okay_line self] else []) ++
    (TAB +:+ "asm volatile (") :: rest.
Proof.
  unfold body_after_declarations.
  destruct (bool_decide _); rewrite ?bind_ret, !bind_print; eauto.
Qed.

Definition example_fd : abi_type := UserDefinedType "fd" (example_layout 4 4).
Definition example_size : abi_type := IntType "size" (example_layout 4 8).

(** A syscall with two inputs and two outputs. *)
Definition example_syscall : Syscall := {|
  syscall_name := "fd_pread"; number := 7; syscall_machine_dep := false;
  noreturn := false;
  input := [{| param_name := "fd"; param_type := example_fd |};
            {| param_name := "buf";
               param_type := PointerType VoidType true |}];
  output := [{| param_name := "nread"; param_type := example_size |};
             {| param_name := "newfd"; param_type := example_fd |}]
|}.

Example example_syscall_body :
  generate_syscall_body (CSyscallsX86_64Generator example_naming)
    example_syscall
  = ([" {";
      TAB +:+ "register uint64_t reg_rax asm(" +:+ DQ +:+ "rax" +:+ DQ +:+
        ") = 7;";
      TAB +:+ "register uint64_t reg_rdi asm(" +:+ DQ +:+ "rdi" +:+ DQ +:+
        ") = (uint64_t)fd;";
      TAB +:+ "register uint64_t reg_rsi asm(" +:+ DQ +:+ "rsi" +:+ DQ +:+
        ") = (uint64_t)buf;";
      TAB +:+ "register uint64_t reg_rdx asm(" +:+ DQ +:+ "rdx" +:+ DQ +:+
        ");";
      TAB +:+ "register char okay;";
      TAB +:+ "asm volatile (";
      TAB +:+ TAB +:+ DQ +:+ "\tsyscall\n" +:+ DQ;
      TAB +:+ TAB +:+ DQ +:+ "\tsetnc %0\n" +:+ DQ;
      TAB +:+ TAB +:+ ": " +:+ DQ +:+ "=r" +:+ DQ +:+ "(okay)";
      TAB +:+ TAB +:+ ", " +:+ DQ +:+ "=r" +:+ DQ +:+ "(reg_rax)";
      TAB +:+ TAB +:+ ", " +:+ DQ +:+ "=r" +:+ DQ +:+ "(reg_rdx)";
      TAB +:+ TAB +:+ ": " +:+ DQ +:+ "r" +:+ DQ +:+ "(reg_rax)";
      TAB +:+ TAB +:+ ", " +:+ DQ +:+ "r" +:+ DQ +:+ "(reg_rdi)";
      TAB +:+ TAB +:+ ", " +:+ DQ +:+ "r" +:+ DQ +:+ "(reg_rsi)";
      TAB +:+ TAB +:+ ": " +:+
        clobbers (CSyscallsX86_64Generator example_naming) +:+ ");";
      TAB +:+ "if (okay) {";
      TAB +:+ TAB +:+ "*nread = (size_t)reg_rax;";
      TAB +:+ TAB +:+ "*newfd = (cloudabi_fd_t)reg_rdx;";
      TAB +:+ TAB +:+ "return 0;";
      TAB +:+ "}";
      TAB +:+ "return reg_rax;";
      "}"], inr tt).
Proof. vm_compute. reflexivity. Qed.

(** ** Output operands *)

(** The lines of an output operand list: a colon before the first operand,
    commas before the others, and a lone colon for the empty list. *)
Definition operand_lines (vars : list string) : list string :=
  match vars with
  | [] => [TAB +:+ TAB +:+ ":"]
  | v :: vs => output_operand true v :: map (output_operand false) vs
  end.

(** The operands that are written after [first] has the given value. *)
Definition operand_lines_from (first : bool) (vars : list string)
    : list string :=
  match vars with
  | [] => []
  | v :: vs => output_operand first v :: map (output_operand false) vs
  end.

Lemma for_fold_seq_index {S} (regs : list string) (body : S → string → Gen S)
    (n : nat) :
  ∀ k s, (k + n ≤ length regs)%nat →
    for_fold (seq k n) s (λ s i, register ← index regs i; body s register)
    = for_fold (take n (drop k regs)) s body.
Proof.
  induction n as [|n IH]; intros k s Hlen; [done|].
  destruct (lookup_lt_is_Some_2 regs k ltac:(lia)) as [r Hr].
  assert (index regs k = mret r) as Hindex by (unfold index; by rewrite Hr).
  rewrite (drop_S _ _ _ Hr). cbn [seq take for_fold].
  rewrite Hindex, bind_ret.
  destruct (body s r) as [out [e|s']]; [done|].
  rewrite !bind_pair. by rewrite IH by lia.
Qed.

Lemma operand_loop (vars : list string) (first : bool) :
  for_fold vars first
    (λ first register,
       print (output_operand first ("reg_" +:+ register));; mret false)
  = (operand_lines_from first (map (λ r, "reg_" +:+ r) vars),
     inr (first && bool_decide (vars = []))).
Proof.
  revert first. induction vars as [|v vars IH]; intros first.
  - by rewrite andb_true_r.
  - cbn [for_fold]. rewrite bind_assoc, bind_print, bind_ret, IH.
    cbn [fst snd andb]. rewrite andb_false_r.
    by destruct vars.
Qed.

(** The error register as an extra output operand. *)
Definition extra_errno_operand (self : CSyscallsImplGenerator)
    (syscall : Syscall) : list string :=
  if negb (noreturn syscall) &&
     negb (bool_decide (errno_register self ∈
                        take (length (output syscall))
                          (output_registers self)))
  then ["reg_" +:+ errno_register self] else [].

Lemma output_operands_eq (self : CSyscallsImplGenerator)
    (syscall : Syscall) :
  (length (output syscall) ≤ length (output_registers self))%nat →
  let M := length (output syscall) in
  output_operands self syscall (bool_decide (0 < M)%nat) =
    (operand_lines
       ((if bool_decide (0 < M)%nat then ["okay"] else []) ++
        map (λ r, "reg_" +:+ r) (take M (output_registers self)) ++
        extra_errno_operand self syscall),
     inr tt).
Proof.
  intros HM M.
  pose proof (for_fold_seq_index (output_registers self)
             (λ first register,
                print (output_operand first ("reg_" +:+ register));;
                mret false) M 0) as Hloop.
  rewrite drop_0 in Hloop.
  assert (length (take M (output_registers self)) = M) as Hlen
    by (rewrite length_take; lia).
  unfold output_operands. fold M.
  unfold extra_errno_operand. fold M.
  destruct (take M (output_registers self)) as [|r rs] eqn:Htake;
    simpl in Hlen.
  - rewrite <- Hlen. rewrite bool_decide_false by lia.
    rewrite bind_ret. cbn [seq for_fold]. rewrite bind_ret.
    rewrite decide_False by apply not_elem_of_nil.
    rewrite bool_decide_false by apply not_elem_of_nil.
    destruct (noreturn syscall); cbn [negb andb]; by gen_steps.
  - rewrite bool_decide_true by lia. gen_steps.
    rewrite Hloop by (simpl; lia).
    rewrite operand_loop. rewrite bind_pair. cbn [fst snd andb].
    destruct (noreturn syscall); cbn [negb andb].
    + gen_steps. simpl. by rewrite !app_nil_r.
    + case_decide as Hin.
      * rewrite bool_decide_true by done. gen_steps. simpl.
        by rewrite !app_nil_r.
      * rewrite bool_decide_false by done. gen_steps.
        simpl. by rewrite map_app.
Qed.

Lemma declare_registers_inr (self : CSyscallsImplGenerator)
    (syscall : Syscall) (out : list string) (defined_regs : gset string) :
  declare_registers self syscall = (out, inr defined_regs) →
  declarable self syscall.
Proof.
  intros Heq. pose proof (declare_registers_post self syscall) as H.
  rewrite Heq in H. by destruct H as (decls & _ & _ & Hok).
Qed.

(** A syscall without output members on aarch64: the error register is the
    only output operand. *)
Example output_operands_no_outputs :
  output_operands (CSyscallsAarch64Generator example_naming)
    {| syscall_name := "fd_close"; number := 3; syscall_machine_dep := false;
       noreturn := false;
       input := [{| param_name := "fd"; param_type := example_fd |}];
       output := [] |} false
  = ([output_operand true "reg_x0"], inr tt).
Proof. reflexivity. Qed.

(** ** Failures of the lowering *)

(** The cast of an output member fails with [e]. *)
Definition write_back_failure (self : CSyscallsImplGenerator)
    (syscall : Syscall) (e : exn) : Prop :=
  ∃ i p register,
    output syscall !! i = Some p ∧ output_registers self !! i = Some register
    ∧ output_cast self register p = inl e.

Lemma index_lt (l : list string) (i : nat) (Φ : list string → string → Prop)
    (Ψ : exn → Prop) :
  (i < length l)%nat → (∀ x, l !! i = Some x → Φ [] x) → post (index l i) Φ Ψ.
Proof.
  intros [x Hx]%lookup_lt_is_Some_2 H. unfold index. rewrite Hx.
  apply post_ret. by apply H.
Qed.

Lemma input_operands_post (self : CSyscallsImplGenerator) (syscall : Syscall)
    (Ψ : exn → Prop) :
  (length (input syscall) ≤ length (input_registers self))%nat →
  post (input_operands self syscall) (λ _ _, True) Ψ.
Proof.
  intros HN. unfold input_operands. apply post_bind, post_print.
  eapply post_mono;
    [apply (post_for_each _ _ (λ _ _, True) Ψ); [done|]|done|done].
  intros i x out [-> Hi]%lookup_seq _. cbn [Nat.add].
  apply post_bind, index_lt; [lia|]. intros r _. by apply post_print.
Qed.

Lemma write_back_post (self : CSyscallsImplGenerator) (syscall : Syscall) :
  (length (output syscall) ≤ length (output_registers self))%nat →
  post (write_back self syscall) (λ _ _, True)
    (write_back_failure self syscall).
Proof.
  intros HM. unfold write_back. apply post_bind, post_print, post_bind.
  eapply post_mono;
    [apply (post_for_each _ _ (λ _ _, True)
              (write_back_failure self syscall)); [done|]| |done].
  - intros i [j p] out [-> Hp]%lookup_enumerate _. cbn [fst snd].
    pose proof (lookup_lt_Some _ _ _ Hp).
    apply post_bind, index_lt; [lia|]. intros r Hr. apply post_bind.
    fold (output_cast self r p).
    destruct (output_cast self r p) as [e|v] eqn:Hcast.
    + apply post_raise. by exists i, p, r.
    + apply (post_ret v). by apply post_print.
  - intros out _ _. apply post_bind, post_print. by apply post_print.
Qed.

Lemma body_after_declarations_post (self : CSyscallsImplGenerator)
    (syscall : Syscall) :
  declarable self syscall →
  post (body_after_declarations self syscall) (λ _ _, True)
    (write_back_failure self syscall).
Proof.
  intros (HN & HM & _ & _). unfold body_after_declarations.
  rewrite (output_operands_eq self syscall HM).
  assert (∀ (b : bool) (s : string) (g : Gen unit),
            post g (λ _ _, True) (write_back_failure self syscall) →
            post ((if b then print s else mret tt);; g) (λ _ _, True)
              (write_back_failure self syscall)) as Hif.
  { intros [] s g Hg; apply post_bind; [by apply post_print|by apply post_ret]. }
  apply Hif. apply post_bind, post_print. apply post_bind, post_print.
  apply Hif. apply post_bind. unfold post at 1.
  apply post_bind.
  eapply post_mono; [by apply input_operands_post| |done]. intros _ _ _.
  apply post_bind, post_print. apply post_bind.
  eapply post_mono;
    [destruct (bool_decide _); [by apply write_back_post|by apply post_ret]
    | |done].
  intros _ _ _. apply post_bind.
  eapply (post_mono _ (λ _ _, True));
    [by destruct (noreturn syscall); apply post_print| |done].
  intros out a _. by apply post_print.
Qed.

Lemma generate_syscall_body_post (self : CSyscallsImplGenerator)
    (syscall : Syscall) :
  post (generate_syscall_body self syscall) (λ _ _, declarable self syscall)
    (λ e, declare_failure self syscall e ∨ write_back_failure self syscall e).
Proof.
  rewrite generate_syscall_body_eq. apply post_bind, post_print, post_bind.
  eapply post_mono; [apply declare_registers_post| |by left].
  intros out d (decls & _ & _ & Hok).
  eapply post_mono; [by apply body_after_declarations_post|done|by right].
Qed.

(** The lowering succeeds when the declarations do and the casts of the
    output members are legal. *)
Lemma generate_syscall_body_succeeds (self : CSyscallsImplGenerator)
    (syscall : Syscall) :
  declarable self syscall →
  (∀ i p register,
     output syscall !! i = Some p →
     output_registers self !! i = Some register →
     ∃ v, output_cast self register p = inr v) →
  ∃ out, generate_syscall_body self syscall = (out, inr tt).
Proof.
  intros Hok Hcasts. pose proof (generate_syscall_body_post self syscall) as H.
  destruct (generate_syscall_body self syscall) as [out [e|[]]]; [|eauto].
  destruct H as [H|(i & p & r & Hp & Hr & Hcast)].
  - by destruct (declarable_not_failure self syscall e).
  - destruct (Hcasts i p r Hp Hr) as [v Hv]. congruence.
Qed.

(** ** The two backends *)

Lemma uint64_input_cast (self : CSyscallsImplGenerator) (p : Param) (e : exn) :
  register_t self = int_type_uint64 →
  input_cast self p = inl e → e = CastException.
Proof.
  unfold input_cast, _ccast. intros ->.
  destruct (param_type p); cbn; try discriminate.
  case_decide; congruence.
Qed.

Lemma uint64_output_cast (self : CSyscallsImplGenerator) (register : string)
    (p : Param) (e : exn) :
  register_t self = int_type_uint64 →
  output_cast self register p = inl e → e = CastException.
Proof.
  unfold output_cast, _ccast. intros ->.
  destruct (param_type p); cbn; try discriminate.
  case_decide; congruence.
Qed.

Lemma NoDup_cons_take (x : string) (l : list string) (n : nat) :
  NoDup (x :: l) → NoDup (x :: take n l).
Proof.
  intros [Hx Hl]%NoDup_cons. apply NoDup_cons. split.
  - intros Hin. apply Hx. apply elem_of_take in Hin as (i & Hi & _).
    by eapply list_elem_of_lookup_2.
  - eapply sublist_NoDup; [done|apply sublist_take].
Qed.

Lemma x86_64_registers_distinct (naming : CNaming) :
  NoDup (syscall_num_register (CSyscallsX86_64Generator naming) ::
         input_registers (CSyscallsX86_64Generator naming)).
Proof. simpl. apply (bool_decide_unpack _). by vm_compute. Qed.

Lemma aarch64_registers_distinct (naming : CNaming) :
  NoDup (syscall_num_register (CSyscallsAarch64Generator naming) ::
         input_registers (CSyscallsAarch64Generator naming)).
Proof. simpl. apply (bool_decide_unpack _). by vm_compute. Qed.

Lemma reference_backend_registers (naming : CNaming)
    (self : CSyscallsImplGenerator) :
  self = CSyscallsX86_64Generator naming ∨
  self = CSyscallsAarch64Generator naming →
  NoDup (syscall_num_register self :: input_registers self)
  ∧ length (input_registers self) = 6%nat
  ∧ length (output_registers self) = 2%nat
  ∧ register_t self = int_type_uint64.
Proof.
  intros [-> | ->];
    auto using x86_64_registers_distinct, aarch64_registers_distinct.
Qed.

(** A syscall without inputs and with three scalar outputs. *)
Definition three_outputs : Syscall := {|
  syscall_name := "three"; number := 1; syscall_machine_dep := false;
  noreturn := false;
  input := [];
  output := [{| param_name := "a"; param_type := example_fd |};
             {| param_name := "b"; param_type := example_fd |};
             {| param_name := "c"; param_type := example_fd |}]
|}.

(** With no input member and no struct to cast, the lowering still aborts:
    the third output member finds no output register. *)
Lemma three_outputs_abort :
  generate_syscall_body (CSyscallsX86_64Generator example_naming)
    three_outputs
  = ([" {";
      register_line (CSyscallsX86_64Generator example_naming) "rax" " = 1";
      register_line (CSyscallsX86_64Generator example_naming) "rdx" ""],
     inl IndexError)
  ∧ (length (input three_outputs) ≤ 6)%nat
  ∧ input three_outputs = []
  ∧ Forall (λ p, is_StructType (param_type p) = false) (output three_outputs)
  ∧ generate_syscall_body (CSyscallsAarch64Generator example_naming)
      three_outputs
    = ([" {";
        register_line (CSyscallsAarch64Generator example_naming) "x8" " = 1";
        register_line (CSyscallsAarch64Generator example_naming) "x0" "";
        register_line (CSyscallsAarch64Generator example_naming) "x1" ""],
       inl IndexError).
Proof.
  split; [by vm_compute|]. split; [simpl; lia|]. split; [done|].
  split; [by repeat constructor|by vm_compute].
Qed.

(** C10, as the code has it.  In both backends the number register and
    the six input registers are pairwise distinct, so for a syscall with at
    most six input members [define_reg] never fails its assertion.  The
    lowering of such a syscall aborts only on a cast between a struct and
    the register type of different sizes, or, with more than two output
    members, on the exhaustion of the output registers; without either it
    succeeds. *)
Theorem reference_backend_aborts (naming : CNaming)
    (self : CSyscallsImplGenerator) (syscall : Syscall) :
  self = CSyscallsX86_64Generator naming ∨
  self = CSyscallsAarch64Generator naming →
  (length (input syscall) ≤ 6)%nat →
  NoDup (syscall_num_register self :: input_registers self)
  ∧ (∀ out e,
       generate_syscall_body self syscall = (out, inl e) →
       (e = CastException
        ∧ ((∃ p, p ∈ input syscall ∧ input_cast self p = inl CastException)
           ∨ write_back_failure self syscall CastException))
       ∨ (e = IndexError ∧ (2 < length (output syscall))%nat))
  ∧ ((length (output syscall) ≤ 2)%nat →
     (∀ p, p ∈ input syscall → ∃ v, input_cast self p = inr v) →
     (∀ i p register,
        output syscall !! i = Some p →
        output_registers self !! i = Some register →
        ∃ v, output_cast self register p = inr v) →
     ∃ out, generate_syscall_body self syscall = (out, inr tt)).
Proof.
  intros Hself HN.
  destruct (reference_backend_registers naming self Hself)
    as (Hnd & Hin & Hout & Hreg).
  split; [done|]. split.
  - intros out e Heq.
    pose proof (generate_syscall_body_post self syscall) as H.
    rewrite Heq in H. simpl in H.
    destruct H as [[[-> [?|?]]|[[_ H]|(p & Hp & Hcast)]]|H].
    + lia.
    + right. split; [done|lia].
    + destruct H. by apply NoDup_cons_take.
    + pose proof (uint64_input_cast self p e Hreg Hcast) as ->.
      left. split; [done|]. left. by exists p.
    + destruct H as (i & p & r & Hp & Hr & Hcast).
      pose proof (uint64_output_cast self r p e Hreg Hcast) as ->.
      left. split; [done|]. right. by exists i, p, r.
  - intros HM Hcasts Hwb. apply generate_syscall_body_succeeds; [|done].
    split; [lia|]. split; [lia|]. split; [|done]. by apply NoDup_cons_take.
Qed.

Lemma reference_backend_aborts_witness :
  NoDup (syscall_num_register (CSyscallsAarch64Generator example_naming) ::
         input_registers (CSyscallsAarch64Generator example_naming))
  ∧ ∃ out, generate_syscall_body (CSyscallsAarch64Generator example_naming)
             example_syscall = (out, inr tt).
Proof.
  destruct (reference_backend_aborts example_naming
              (CSyscallsAarch64Generator example_naming) example_syscall)
    as (Hnd & _ & Hok); [by right|simpl; lia|].
  split; [exact Hnd|]. apply Hok.
  - simpl. lia.
  - intros p Hp. unfold input_cast.
    rewrite ccast_plain; [eauto| |done].
    simpl in Hp. apply elem_of_cons in Hp as [->|Hp]; [done|].
    by apply list_elem_of_singleton in Hp as ->.
  - intros i p r Hp Hr. unfold output_cast.
    rewrite ccast_plain; [eauto|done|].
    apply list_elem_of_lookup_2 in Hp. simpl in Hp.
    apply elem_of_cons in Hp as [->|Hp]; [done|].
    by apply list_elem_of_singleton in Hp as ->.
Defined.

(** ** Noreturn syscalls *)

(** [s] without its leading tabs. *)
Fixpoint lstrip_tabs (s : string) : string :=
  match s with
  | String c s' => if Ascii.eqb c "009" then lstrip_tabs s' else s
  | EmptyString => s
  end.

(** The line is a [return] statement. *)
Definition is_return_statement (line : string) : bool :=
  String.prefix "return" (lstrip_tabs line).

(** The line is neither a [return] statement nor the declaration of the
    status variable. *)
Definition plain_line (self : CSyscallsImplGenerator) (line : string) : bool :=
  negb (is_return_statement line) && negb (String.eqb line (okay_line self)).

Section printed_lines.
Context (P : string → Prop).

Lemma printed_ret {A} (a : A) : Forall P (printed (mret a : Gen A)).
Proof. constructor. Qed.

Lemma printed_raise {A} (e : exn) : Forall P (printed (raise e : Gen A)).
Proof. constructor. Qed.

Lemma printed_lift {A} (r : exn + A) : Forall P (printed (lift r)).
Proof. constructor. Qed.

Lemma printed_index (l : list string) (i : nat) :
  Forall P (printed (index l i)).
Proof. unfold index. destruct (l !! i); constructor. Qed.

Lemma printed_print (s : string) : P s → Forall P (printed (print s)).
Proof. by repeat constructor. Qed.

Lemma printed_bind {A B} (m : Gen A) (f : A → Gen B) :
  Forall P (printed m) → (∀ a, Forall P (printed (f a))) →
  Forall P (printed (m ≫= f)).
Proof.
  destruct m as [out [e|a]]; intros Hm Hf; [done|].
  rewrite bind_pair. apply Forall_app. split; [done|apply Hf].
Qed.

Lemma printed_for_fold {A S} (l : list A) (s : S) (body : S → A → Gen S) :
  (∀ s x, Forall P (printed (body s x))) →
  Forall P (printed (for_fold l s body)).
Proof.
  intros Hbody. revert s. induction l as [|x l IH]; intros s.
  - apply printed_ret.
  - cbn [for_fold]. by apply printed_bind.
Qed.

Lemma printed_for_each {A} (l : list A) (body : A → Gen unit) :
  (∀ x, Forall P (printed (body x))) → Forall P (printed (for_each l body)).
Proof.
  intros Hbody. induction l as [|x l IH].
  - apply printed_ret.
  - rewrite for_each_cons. by apply printed_bind.
Qed.
End printed_lines.

(** Splits a computation into the lines it prints. *)
Ltac printed_lines :=
  repeat first
    [ apply printed_ret | apply printed_raise | apply printed_lift
    | apply printed_index
    | apply printed_print
    | apply printed_bind; [|intros ?]
    | apply printed_for_fold; intros ? ?
    | apply printed_for_each; intros ?
    | match goal with
      | |- Forall _ (printed (if ?b then _ else _)) => destruct b
      | |- Forall _ (printed (match ?v with Some _ => _ | None => _ end)) =>
          destruct v
      end ].

Lemma printed_generate_syscall_body (P : string → Prop)
    (self : CSyscallsImplGenerator) (syscall : Syscall) :
  P " {" →
  (∀ register defn, P (register_line self register defn)) →
  (output syscall ≠ [] →
   P (okay_line self) ∧ P (asm_check self) ∧ P (TAB +:+ "if (okay) {") ∧
   (∀ s, P (TAB +:+ TAB +:+ "*" +:+ s)) ∧
   P (TAB +:+ TAB +:+ "return 0;") ∧ P (TAB +:+ "}")) →
  P (TAB +:+ "asm volatile (") → P (asm self) →
  (∀ first var, P (output_operand first var)) → P (TAB +:+ TAB +:+ ":") →
  (∀ s, P (TAB +:+ TAB +:+ ": " +:+ s)) →
  (∀ s, P (TAB +:+ TAB +:+ ", " +:+ s)) →
  (if noreturn syscall then P (TAB +:+ "for (;;);")
   else P (TAB +:+ "return reg_" +:+ errno_register self +:+ ";")) →
  P "}" →
  Forall P (printed (generate_syscall_body self syscall)).
Proof.
  intros Hopen Hreg Hokay Hasm Hasm' Hop Hcolon Hin Hin' Hfinal Hclose.
  unfold generate_syscall_body, declare_registers, output_operands,
    input_operands, write_back, define_reg.
  assert (bool_decide (0 < length (output syscall))%nat = true →
          output syscall ≠ []) as Hne.
  { intros ?%bool_decide_eq_true_1 Hnil. rewrite Hnil in *. simpl in *. lia. }
  destruct (bool_decide (0 < length (output syscall))%nat);
    [destruct (Hokay (Hne eq_refl)) as (? & ? & ? & ? & ? & ?)|clear Hokay];
    destruct (noreturn syscall);
    printed_lines; auto.
  all: rewrite <- ?string_app_assoc; auto.
Qed.

Lemma plain_line_spec (self : CSyscallsImplGenerator) (lines : list string) :
  Forall (λ line, plain_line self line = true) lines →
  Forall (λ line, is_return_statement line = false) lines
  ∧ okay_line self ∉ lines.
Proof.
  intros H. split.
  - eapply Forall_impl; [exact H|]. intros line Hline. cbv beta in Hline.
    unfold plain_line in Hline. apply andb_prop in Hline as [Hret _].
    by apply negb_true_iff in Hret.
  - intros Hin. rewrite Forall_forall in H. specialize (H _ Hin).
    unfold plain_line in H. apply andb_prop in H as [_ Hne].
    apply negb_true_iff in Hne. by rewrite String.eqb_refl in Hne.
Qed.

(** A noreturn syscall that has an output member. *)
Definition noreturn_with_output : Syscall := {|
  syscall_name := "exit_status"; number := 2; syscall_machine_dep := false;
  noreturn := true;
  input := [{| param_name := "rval"; param_type := int_type_uint32 |}];
  output := [{| param_name := "old"; param_type := int_type_uint32 |}]
|}.

(** Its body declares the status variable and returns 0 under the guard. *)
Lemma noreturn_with_output_returns :
  generate_syscall_body (CSyscallsX86_64Generator example_naming)
    noreturn_with_output
  = ([" {";
      register_line (CSyscallsX86_64Generator example_naming) "rax" " = 2";
      register_line (CSyscallsX86_64Generator example_naming) "rdi"
        " = (uint64_t)rval";
      TAB +:+ "register char okay;";
      TAB +:+ "asm volatile (";
      TAB +:+ TAB +:+ DQ +:+ "\tsyscall\n" +:+ DQ;
      TAB +:+ TAB +:+ DQ +:+ "\tsetnc %0\n" +:+ DQ;
      output_operand true "okay";
      output_operand false "reg_rax";
      TAB +:+ TAB +:+ ": " +:+ DQ +:+ "r" +:+ DQ +:+ "(reg_rax)";
      TAB +:+ TAB +:+ ", " +:+ DQ +:+ "r" +:+ DQ +:+ "(reg_rdi)";
      TAB +:+ TAB +:+ ": " +:+
        clobbers (CSyscallsX86_64Generator example_naming) +:+ ");";
      TAB +:+ "if (okay) {";
      TAB +:+ TAB +:+ "*old = (uint32_t)reg_rax;";
      TAB +:+ TAB +:+ "return 0;";
      TAB +:+ "}";
      TAB +:+ "for (;;);";
      "}"], inr tt)
  ∧ noreturn noreturn_with_output = true
  ∧ okay_line (CSyscallsX86_64Generator example_naming)
    = TAB +:+ "register char okay;"
  ∧ is_return_statement (TAB +:+ TAB +:+ "return 0;") = true.
Proof. repeat split; by vm_compute. Qed.

Lemma reference_backend_plain_lines (naming : CNaming)
    (self : CSyscallsImplGenerator) (syscall : Syscall) :
  self = CSyscallsX86_64Generator naming ∨
  self = CSyscallsAarch64Generator naming →
  noreturn syscall = true → output syscall = [] →
  Forall (λ line, plain_line self line = true)
    (printed (generate_syscall_body self syscall)).
Proof.
  intros Hself Hnr Hout. apply printed_generate_syscall_body;
    rewrite ?Hnr; try (by intros []);
    destruct Hself as [-> | ->]; try done; try (intros; by vm_compute).
  all: intros [] ?; by vm_compute.
Qed.

(** C4, as the code has it.  In both backends the body of a noreturn
    syscall, when the lowering succeeds, ends with the infinite loop before
    the closing brace.  When the syscall has no output members the body has
    no [return] statement and no declaration of the status variable, and
    the lowering succeeds with at most six input members and legal input
    casts. *)
Theorem noreturn_body (naming : CNaming) (self : CSyscallsImplGenerator)
    (syscall : Syscall) :
  self = CSyscallsX86_64Generator naming ∨
  self = CSyscallsAarch64Generator naming →
  noreturn syscall = true →
  (∀ out, generate_syscall_body self syscall = (out, inr tt) →
     ∃ lines, out = lines ++ [TAB +:+ "for (;;);"; "}"])
  ∧ (output syscall = [] →
     Forall (λ line, is_return_statement line = false)
       (printed (generate_syscall_body self syscall))
     ∧ (okay_line self ∉ printed (generate_syscall_body self syscall))
     ∧ ((length (input syscall) ≤ 6)%nat →
        (∀ p, p ∈ input syscall → ∃ v, input_cast self p = inr v) →
        ∃ out, generate_syscall_body self syscall = (out, inr tt))).
Proof.
  intros Hself Hnr. split.
  - intros out Heq. rewrite generate_syscall_body_eq in Heq.
    unfold body_after_declarations in Heq. rewrite Hnr in Heq.
    remember (print (TAB +:+ "for (;;);");; print "}") as tail eqn:Htail.
    repeat (apply bind_inr_inv in Heq as (? & ? & ? & _ & Heq & ->)).
    subst tail. injection Heq as <-.
    eexists. rewrite !app_assoc. reflexivity.
  - intros Hout.
    pose proof (reference_backend_plain_lines naming self syscall Hself Hnr
                  Hout) as [Hret Hokay]%plain_line_spec.
    split; [done|]. split; [done|].
    intros HN Hcasts. apply generate_syscall_body_succeeds.
    + destruct (reference_backend_registers naming self Hself)
        as (Hnd & Hlen & _).
      unfold declarable. rewrite Hout.
      split; [lia|]. split; [simpl; lia|]. split; [|done].
      by apply NoDup_cons_take.
    + intros i p r Hp. by rewrite Hout in Hp.
Qed.

Definition proc_exit : Syscall := {|
  syscall_name := "proc_exit"; number := 31; syscall_machine_dep := false;
  noreturn := true;
  input := [{| param_name := "rval"; param_type := int_type_uint32 |}];
  output := []
|}.

Lemma noreturn_body_witness :
  (∃ lines,
     generate_syscall_body (CSyscallsX86_64Generator example_naming) proc_exit
     = (lines ++ [TAB +:+ "for (;;);"; "}"], inr tt))
  ∧ Forall (λ line, is_return_statement line = false)
      (printed (generate_syscall_body
                  (CSyscallsX86_64Generator example_naming) proc_exit))
  ∧ okay_line (CSyscallsX86_64Generator example_naming) ∉
    printed (generate_syscall_body
               (CSyscallsX86_64Generator example_naming) proc_exit).
Proof.
  destruct (noreturn_body example_naming
              (CSyscallsX86_64Generator example_naming) proc_exit)
    as (Hloop & Hplain); [by left|reflexivity|].
  destruct (Hplain eq_refl) as (Hret & Hokay & Hok).
  split; [|by split].
  destruct Hok as [out Hout]; [simpl; lia| |].
  - intros p Hp. apply list_elem_of_singleton in Hp as ->.
    eexists. reflexivity.
  - destruct (Hloop out Hout) as [lines ->]. by exists lines.
Defined.

Example proc_exit_body :
  printed (generate_syscall_body (CSyscallsAarch64Generator example_naming)
             proc_exit)
  = [" {";
     register_line (CSyscallsAarch64Generator example_naming) "x8" " = 31";
     register_line (CSyscallsAarch64Generator example_naming) "x0"
       " = (uint64_t)rval";
     TAB +:+ "asm volatile (";
     TAB +:+ TAB +:+ DQ +:+ "\tsvc 0\n" +:+ DQ;
     TAB +:+ TAB +:+ ":";
     TAB +:+ TAB +:+ ": " +:+ DQ +:+ "r" +:+ DQ +:+ "(reg_x8)";
     TAB +:+ TAB +:+ ", " +:+ DQ +:+ "r" +:+ DQ +:+ "(reg_x0)";
     TAB +:+ TAB +:+ ": " +:+
       clobbers (CSyscallsAarch64Generator example_naming) +:+ ");";
     TAB +:+ "for (;;);";
     "}"].
Proof. by vm_compute. Qed.

(** * Further properties *)

(** ** The lowered body in closed form *)

Lemma bind_mret_r {A} (m : Gen A) : m ≫= mret = m.
Proof.
  destruct m as [out [e|a]]; [done|]. rewrite bind_pair. simpl.
  by rewrite app_nil_r.
Qed.

Lemma for_fold_app {A S} (l1 l2 : list A) (s : S) (body : S → A → Gen S) :
  for_fold (l1 ++ l2) s body = (s' ← for_fold l1 s body; for_fold l2 s' body).
Proof.
  revert s. induction l1 as [|x l1 IH]; intros s; cbn [app for_fold].
  - by rewrite bind_ret.
  - rewrite bind_assoc. destruct (body s x) as [out [e|s']]; [done|].
    rewrite !bind_pair. by rewrite IH.
Qed.

(** The text of a cast that succeeds. *)
Definition cast_text (r : exn + string) : string :=
  match r with
  | inr v => v
  | inl _ => ""
  end.

(** The registers of [regs] that are not yet in [seen], each once, in
    order. *)
Fixpoint fresh_registers (seen regs : list string) : list string :=
  match regs with
  | [] => []
  | r :: regs' =>
      if decide (r ∈ seen) then fresh_registers seen regs'
      else r :: fresh_registers (r :: seen) regs'
  end.

Lemma define_reg_Some_fresh (self : CSyscallsImplGenerator)
    (defined_regs : gset string) (register v : string) :
  register ∉ defined_regs →
  define_reg self defined_regs register (Some v) =
    ([register_line self register (" = " +:+ v)],
     inr ({[register]} ∪ defined_regs)).
Proof. intros Hr. unfold define_reg. by rewrite decide_False by done. Qed.

Lemma define_reg_Some_defined (self : CSyscallsImplGenerator)
    (defined_regs : gset string) (register v : string) :
  register ∈ defined_regs →
  define_reg self defined_regs register (Some v) = raise AssertionError.
Proof. intros Hr. unfold define_reg. by rewrite decide_True by done. Qed.

Lemma define_reg_None_fresh (self : CSyscallsImplGenerator)
    (defined_regs : gset string) (register : string) :
  register ∉ defined_regs →
  define_reg self defined_regs register None =
    ([register_line self register ""], inr ({[register]} ∪ defined_regs)).
Proof. intros Hr. unfold define_reg. by rewrite decide_False by done. Qed.

Lemma define_reg_None_defined (self : CSyscallsImplGenerator)
    (defined_regs : gset string) (register : string) :
  register ∈ defined_regs →
  define_reg self defined_regs register None = mret defined_regs.
Proof. intros Hr. unfold define_reg. by rewrite decide_True by done. Qed.

(** The loop body that declares the register of one input member. *)
Definition declare_input (self : CSyscallsImplGenerator)
    (defined_regs : gset string) (ip : nat * Param) : Gen (gset string) :=
  register ← index (input_registers self) ip.1;
  value ← lift (_ccast self (param_type ip.2) (register_t self)
                  (param_name ip.2));
  define_reg self defined_regs register (Some value).

Lemma declare_input_eq (self : CSyscallsImplGenerator)
    (defined_regs : gset string) (k : nat) (p : Param) (r v : string) :
  input_registers self !! k = Some r → input_cast self p = inr v →
  r ∉ defined_regs →
  declare_input self defined_regs (k, p) =
    ([register_line self r (" = " +:+ v)], inr ({[r]} ∪ defined_regs)).
Proof.
  intros Hr Hv Hfresh. unfold declare_input, index. cbn [fst snd].
  fold (input_cast self p). rewrite Hr, Hv, bind_ret, bind_lift_inr.
  by apply define_reg_Some_fresh.
Qed.

(** The declarations of the input registers. *)
Definition input_declarations (self : CSyscallsImplGenerator)
    (regs : list string) (ps : list Param) : list (string * string) :=
  zip_with (λ r p, (r, " = " +:+ cast_text (input_cast self p))) regs ps.

Lemma declare_inputs_eq (self : CSyscallsImplGenerator) (ps : list Param) :
  ∀ (k : nat) (defined_regs : gset string),
    (k + length ps ≤ length (input_registers self))%nat →
    NoDup (take (length ps) (drop k (input_registers self))) →
    (∀ r, r ∈ take (length ps) (drop k (input_registers self)) →
          r ∉ defined_regs) →
    (∀ p, p ∈ ps → ∃ v, input_cast self p = inr v) →
    for_fold (zip (seq k (length ps)) ps) defined_regs (declare_input self)
    = (register_decl_lines self
         (input_declarations self
            (take (length ps) (drop k (input_registers self))) ps),
       inr (list_to_set (take (length ps) (drop k (input_registers self)))
            ∪ defined_regs)).
Proof.
  induction ps as [|p ps IH]; intros k d Hlen Hnd Hfresh Hcasts.
  - simpl. by rewrite (left_id_L ∅ (∪)).
  - cbn [length] in *.
    destruct (lookup_lt_is_Some_2 (input_registers self) k ltac:(lia))
      as [r Hr].
    rewrite (drop_S _ _ _ Hr) in *. cbn [take] in *.
    apply NoDup_cons in Hnd as [Hr_notin Hnd].
    destruct (Hcasts p) as [v Hv]; [by left|].
    cbn [seq zip_with for_fold].
    rewrite (declare_input_eq self d k p r v Hr Hv)
      by (apply Hfresh; by left).
    rewrite bind_pair.
    rewrite (IH (S k) ({[r]} ∪ d)); [|lia|done| |].
    + cbn [fst snd]. unfold input_declarations. cbn [zip_with].
      rewrite Hv. cbn [cast_text].
      replace (list_to_set
                 (r :: take (length ps)
                         (drop (S k) (input_registers self))) ∪ d)
        with (list_to_set (take (length ps)
                             (drop (S k) (input_registers self)))
              ∪ ({[r]} ∪ d) : gset string); [done|].
      apply set_eq. intros x.
      rewrite !elem_of_union, !elem_of_list_to_set, elem_of_cons,
        elem_of_singleton. tauto.
    + intros r' Hr' [->%elem_of_singleton|Hd]%elem_of_union; [done|].
      by apply (Hfresh r'); [right|].
    + intros p' Hp'. apply Hcasts. by right.
Qed.

Lemma declare_fresh_eq (self : CSyscallsImplGenerator) (regs : list string) :
  ∀ (seen : list string) (defined_regs : gset string),
    defined_regs = list_to_set seen →
    for_fold regs defined_regs (λ d r, define_reg self d r None)
    = (register_decl_lines self
         (map (λ r, (r, "")) (fresh_registers seen regs)),
       inr (list_to_set regs ∪ defined_regs)).
Proof.
  induction regs as [|r regs IH]; intros seen d ->.
  - simpl. by rewrite (left_id_L ∅ (∪)).
  - cbn [for_fold fresh_registers].
    destruct (decide (r ∈ seen)) as [Hin|Hnotin].
    + rewrite define_reg_None_defined by (by apply elem_of_list_to_set).
      rewrite bind_ret, (IH seen) by done.
      replace (list_to_set (r :: regs) ∪ list_to_set seen)
        with (list_to_set regs ∪ list_to_set seen : gset string); [done|].
      apply set_eq. intros x.
      rewrite !elem_of_union, !elem_of_list_to_set, elem_of_cons.
      split; [tauto|]. intros [[->|?]|?]; tauto.
    + rewrite define_reg_None_fresh by (by rewrite elem_of_list_to_set).
      rewrite bind_pair.
      rewrite (IH (r :: seen)) by (by rewrite list_to_set_cons).
      cbn [fst snd map].
      replace (list_to_set (r :: regs) ∪ list_to_set seen)
        with (list_to_set regs ∪ ({[r]} ∪ list_to_set seen) : gset string);
        [done|].
      apply set_eq. intros x.
      rewrite !elem_of_union, !elem_of_list_to_set, elem_of_cons,
        elem_of_singleton. tauto.
Qed.

(** The register declarations of a syscall, in order: the number register
    with the syscall number, the input registers with the casts of the
    input members, then the output registers and the error register that
    are not declared yet, without initializer. *)
Definition lowered_declarations (self : CSyscallsImplGenerator)
    (syscall : Syscall) : list (string * string) :=
  let ins := take (length (input syscall)) (input_registers self) in
  let outs := take (length (output syscall)) (output_registers self) in
  (syscall_num_register self, " = " +:+ Py.str (number syscall)) ::
  input_declarations self ins (input syscall) ++
  map (λ r, (r, ""))
    (fresh_registers (syscall_num_register self :: ins)
       (outs ++ [errno_register self])).

Lemma declare_registers_eq (self : CSyscallsImplGenerator)
    (syscall : Syscall) :
  declarable self syscall →
  ∃ defined_regs,
    declare_registers self syscall =
      (register_decl_lines self (lowered_declarations self syscall),
       inr defined_regs).
Proof.
  intros (HN & HM & Hnd & Hcasts).
  set (N := length (input syscall)) in *.
  set (M := length (output syscall)) in *.
  set (F := λ (d : gset string) (r : string), define_reg self d r None).
  assert (declare_registers self syscall =
          (d ← define_reg self ∅ (syscall_num_register self)
                 (Some (Py.str (number syscall)));
           d ← for_fold (zip (seq 0 N) (input syscall)) d (declare_input self);
           d ← for_fold (seq 0 M) d
                 (λ d i, register ← index (output_registers self) i;
                         F d register);
           F d (errno_register self))) as -> by reflexivity.
  apply NoDup_cons in Hnd as Hnd'. destruct Hnd' as [Hnum Hins].
  rewrite define_reg_Some_fresh, bind_pair by apply not_elem_of_empty.
  pose proof (declare_inputs_eq self (input syscall) 0 ({[syscall_num_register self]} ∪ ∅))
    as Hin.
  fold N in Hin. rewrite drop_0 in Hin. rewrite Hin; [|lia|done| |done].
  2:{ intros r Hr [->%elem_of_singleton|[]%not_elem_of_empty]%elem_of_union.
      done. }
  cbn [fst snd]. rewrite bind_pair.
  rewrite (for_fold_seq_index (output_registers self) F M 0) by lia.
  rewrite drop_0.
  assert (∀ d, (d' ← for_fold (take M (output_registers self)) d F;
                F d' (errno_register self))
               = for_fold (take M (output_registers self) ++
                           [errno_register self]) d F) as ->.
  { intros d. rewrite for_fold_app.
    destruct (for_fold _ d F) as [out [e|d']]; [done|].
    rewrite !bind_pair. cbn [for_fold]. by rewrite bind_mret_r. }
  rewrite (declare_fresh_eq self _
             (syscall_num_register self ::
              take N (input_registers self))).
  - cbn [fst snd]. eexists. unfold lowered_declarations. fold N M.
    unfold register_decl_lines. cbn [map]. rewrite map_app. reflexivity.
  - apply set_eq. intros x.
    rewrite !elem_of_union, !elem_of_list_to_set, elem_of_cons,
      elem_of_singleton, elem_of_empty. tauto.
Qed.

Lemma for_each_seq_index (regs : list string) (body : string → Gen unit)
    (n : nat) :
  ∀ k, (k + n ≤ length regs)%nat →
    for_each (seq k n) (λ i, register ← index regs i; body register)
    = for_each (take n (drop k regs)) body.
Proof.
  induction n as [|n IH]; intros k Hlen; [done|].
  destruct (lookup_lt_is_Some_2 regs k ltac:(lia)) as [r Hr].
  assert (index regs k = mret r) as Hindex by (unfold index; by rewrite Hr).
  rewrite (drop_S _ _ _ Hr). cbn [seq take]. rewrite !for_each_cons.
  rewrite Hindex, bind_ret. by rewrite IH by lia.
Qed.

Lemma for_each_print {A} (l : list A) (f : A → string) :
  for_each l (λ x, print (f x)) = (map f l, inr tt).
Proof.
  induction l as [|x l IH]; [done|].
  by rewrite for_each_cons, bind_print, IH.
Qed.

(** The input operand lines: the number register, then the input
    registers. *)
Definition input_operand_lines (self : CSyscallsImplGenerator)
    (syscall : Syscall) : list string :=
  (TAB +:+ TAB +:+ ": " +:+ DQ +:+ "r" +:+ DQ +:+ "(reg_" +:+
   syscall_num_register self +:+ ")") ::
  map (λ r, TAB +:+ TAB +:+ ", " +:+ DQ +:+ "r" +:+ DQ +:+ "(reg_" +:+ r
            +:+ ")")
    (take (length (input syscall)) (input_registers self)).

Lemma input_operands_eq (self : CSyscallsImplGenerator) (syscall : Syscall) :
  (length (input syscall) ≤ length (input_registers self))%nat →
  input_operands self syscall = (input_operand_lines self syscall, inr tt).
Proof.
  intros HN. unfold input_operands. rewrite bind_print.
  rewrite (for_each_seq_index (input_registers self)
             (λ r, print (TAB +:+ TAB +:+ ", " +:+ DQ +:+ "r" +:+ DQ +:+
                          "(reg_" +:+ r +:+ ")"))) by lia.
  by rewrite drop_0, for_each_print.
Qed.

(** The loop body that writes one output member back. *)
Definition write_back_member (self : CSyscallsImplGenerator)
    (ip : nat * Param) : Gen unit :=
  register ← index (output_registers self) ip.1;
  value ← lift (_ccast self (register_t self) (param_type ip.2)
                  ("reg_" +:+ register));
  print (TAB +:+ TAB +:+ "*" +:+ param_name ip.2 +:+ " = " +:+ value +:+ ";").

(** The assignment that stores the register of an output member through
    its pointer parameter. *)
Definition write_back_line (self : CSyscallsImplGenerator) (register : string)
    (p : Param) : string :=
  TAB +:+ TAB +:+ "*" +:+ param_name p +:+ " = " +:+
  cast_text (output_cast self register p) +:+ ";".

Lemma write_back_members_eq (self : CSyscallsImplGenerator)
    (ps : list Param) :
  ∀ k, (k + length ps ≤ length (output_registers self))%nat →
    (∀ i p r, ps !! i = Some p →
              output_registers self !! (k + i)%nat = Some r →
              ∃ w, output_cast self r p = inr w) →
    for_each (zip (seq k (length ps)) ps) (write_back_member self)
    = (zip_with (write_back_line self)
         (take (length ps) (drop k (output_registers self))) ps, inr tt).
Proof.
  induction ps as [|p ps IH]; intros k Hlen Hcasts; [done|].
  cbn [length] in *.
  destruct (lookup_lt_is_Some_2 (output_registers self) k ltac:(lia))
    as [r Hr].
  destruct (Hcasts 0%nat p r eq_refl) as [w Hw];
    [by rewrite Nat.add_0_r|].
  rewrite (drop_S _ _ _ Hr). cbn [seq zip_with take]. rewrite for_each_cons.
  assert (write_back_member self (k, p) = print (write_back_line self r p))
    as ->.
  { unfold write_back_member, index, write_back_line. cbn [fst snd].
    rewrite Hr, bind_ret. fold (output_cast self r p).
    by rewrite Hw, bind_lift_inr. }
  rewrite bind_print, IH; [done|lia|].
  intros i p' r' Hp' Hr'. apply (Hcasts (S i) p' r' Hp').
  by rewrite <- Nat.add_succ_comm.
Qed.

(** The guarded write-back of the output members. *)
Definition write_back_lines (self : CSyscallsImplGenerator)
    (syscall : Syscall) : list string :=
  (TAB +:+ "if (okay) {") ::
  zip_with (write_back_line self)
    (take (length (output syscall)) (output_registers self))
    (output syscall) ++
  [TAB +:+ TAB +:+ "return 0;"; TAB +:+ "}"].

(** The casts of the output members are legal. *)
Definition output_casts_legal (self : CSyscallsImplGenerator)
    (syscall : Syscall) : Prop :=
  ∀ i p register,
    output syscall !! i = Some p →
    output_registers self !! i = Some register →
    ∃ w, output_cast self register p = inr w.

Lemma write_back_eq (self : CSyscallsImplGenerator) (syscall : Syscall) :
  (length (output syscall) ≤ length (output_registers self))%nat →
  output_casts_legal self syscall →
  write_back self syscall = (write_back_lines self syscall, inr tt).
Proof.
  intros HM Hcasts.
  assert (write_back self syscall =
          (print (TAB +:+ "if (okay) {");;
           for_each (zip (seq 0 (length (output syscall))) (output syscall))
             (write_back_member self);;
           print (TAB +:+ TAB +:+ "return 0;");;
           print (TAB +:+ "}"))) as -> by reflexivity.
  rewrite bind_print, write_back_members_eq, bind_pair, bind_print; [|lia|done].
  by rewrite drop_0.
Qed.

(** The body of the implementation of a syscall, line by line. *)
Definition lowered_body (self : CSyscallsImplGenerator) (syscall : Syscall)
    : list string :=
  let M := length (output syscall) in
  let check_okay := bool_decide (0 < M)%nat in
  [" {"] ++
  register_decl_lines self (lowered_declarations self syscall) ++
  (if check_okay then [okay_line self] else []) ++
  [TAB +:+ "asm volatile ("; asm self] ++
  (if check_okay then [asm_check self] else []) ++
  operand_lines
    ((if check_okay then ["okay"] else []) ++
     map (λ r, "reg_" +:+ r) (take M (output_registers self)) ++
     extra_errno_operand self syscall) ++
  input_operand_lines self syscall ++
  [TAB +:+ TAB +:+ ": " +:+ clobbers self +:+ ");"] ++
  (if check_okay then write_back_lines self syscall else []) ++
  [if noreturn syscall then TAB +:+ "for (;;);"
   else TAB +:+ "return reg_" +:+ errno_register self +:+ ";";
   "}"].

Lemma generate_syscall_body_lowered (self : CSyscallsImplGenerator)
    (syscall : Syscall) :
  declarable self syscall → output_casts_legal self syscall →
  generate_syscall_body self syscall = (lowered_body self syscall, inr tt).
Proof.
  intros Hok Hlegal.
  destruct (declare_registers_eq self syscall Hok) as [d Hdecl].
  destruct Hok as (HN & HM & _ & _).
  rewrite generate_syscall_body_eq, Hdecl. unfold body_after_declarations.
  rewrite (output_operands_eq self syscall HM).
  rewrite (input_operands_eq self syscall HN).
  rewrite (write_back_eq self syscall HM Hlegal).
  unfold lowered_body.
  destruct (bool_decide (0 < length (output syscall))%nat),
    (noreturn syscall);
    repeat (rewrite ?bind_print, ?bind_pair, ?bind_ret; cbn [fst snd]);
    by rewrite <- ?app_assoc.
Qed.

Lemma write_back_post_legal (self : CSyscallsImplGenerator)
    (syscall : Syscall) :
  post (write_back self syscall) (λ _ _, output_casts_legal self syscall)
    (λ _, True).
Proof.
  unfold write_back. apply post_bind, post_print, post_bind.
  eapply post_mono;
    [apply (post_for_each _ _
              (λ i _, ∀ j p r, (j < i)%nat →
                        output syscall !! j = Some p →
                        output_registers self !! j = Some r →
                        ∃ w, output_cast self r p = inr w)
              (λ _, True)); [intros; lia|]| |done].
  - intros i [j p] out [-> Hp]%lookup_enumerate Hinv. cbn [fst snd].
    apply post_bind. unfold index.
    destruct (output_registers self !! i) as [r|] eqn:Hr;
      [apply post_ret|by apply post_raise].
    apply post_bind. fold (output_cast self r p).
    destruct (output_cast self r p) as [e|w] eqn:Hcast;
      [by apply post_raise|apply (post_ret w)].
    apply post_print. intros j p' r' Hj Hp' Hr'.
    destruct (decide (j = i)) as [->|]; [|apply (Hinv j p' r'); [lia|done..]].
    rewrite Hp in Hp'. rewrite Hr in Hr'. injection Hp' as <-.
    injection Hr' as <-. eauto.
  - intros out u Hinv. cbv beta in Hinv.
    apply post_bind, post_print, post_print.
    intros i p r Hp Hr. apply (Hinv i p r); [|done..].
    rewrite length_enumerate. by apply lookup_lt_Some in Hp.
Qed.

Lemma generate_syscall_body_inr (self : CSyscallsImplGenerator)
    (syscall : Syscall) (out : list string) :
  generate_syscall_body self syscall = (out, inr tt) →
  declarable self syscall ∧ output_casts_legal self syscall.
Proof.
  intros Heq. split.
  - pose proof (generate_syscall_body_post self syscall) as H.
    by rewrite Heq in H.
  - rewrite generate_syscall_body_eq in Heq.
    unfold body_after_declarations in Heq.
    do 9 (apply bind_inr_inv in Heq as (? & ? & ? & _ & Heq & ->)).
    apply bind_inr_inv in Heq as (o & [] & ? & Hwb & _ & ->).
    destruct (bool_decide (0 < length (output syscall))%nat) eqn:HM.
    + pose proof (write_back_post_legal self syscall) as H.
      by rewrite Hwb in H.
    + apply bool_decide_eq_false_1 in HM.
      intros i p r Hp _. apply lookup_lt_Some in Hp. lia.
Qed.

Lemma generate_syscall_body_inr_lowered (self : CSyscallsImplGenerator)
    (syscall : Syscall) (out : list string) :
  generate_syscall_body self syscall = (out, inr tt) →
  out = lowered_body self syscall.
Proof.
  intros Heq.
  destruct (generate_syscall_body_inr self syscall out Heq) as [Hok Hlegal].
  rewrite (generate_syscall_body_lowered self syscall Hok Hlegal) in Heq.
  by injection Heq.
Qed.

(** The lowering of a syscall succeeds exactly when both register lists
    are long enough for its members, the number register and the input
    registers in use are distinct, and every cast of an input member into
    the register type and of a register into the type of an output member
    is legal. *)
Theorem generate_syscall_body_iff (self : CSyscallsImplGenerator)
    (syscall : Syscall) :
  (∃ out, generate_syscall_body self syscall = (out, inr tt)) ↔
  declarable self syscall ∧ output_casts_legal self syscall.
Proof.
  split.
  - intros [out Heq]. by apply (generate_syscall_body_inr self syscall out).
  - intros [Hok Hlegal]. exists (lowered_body self syscall).
    by apply generate_syscall_body_lowered.
Qed.



Example lowered_body_aarch64 :
  lowered_body (CSyscallsAarch64Generator example_naming) example_syscall
  = [" {";
     register_line (CSyscallsAarch64Generator example_naming) "x8" " = 7";
     register_line (CSyscallsAarch64Generator example_naming) "x0"
       " = (uint64_t)fd";
     register_line (CSyscallsAarch64Generator example_naming) "x1"
       " = (uint64_t)buf";
     TAB +:+ "register uint64_t okay;";
     TAB +:+ "asm volatile (";
     TAB +:+ TAB +:+ DQ +:+ "\tsvc 0\n" +:+ DQ;
     TAB +:+ TAB +:+ DQ +:+ "\tcset %0, cc\n" +:+ DQ;
     output_operand true "okay";
     output_operand false "reg_x0";
     output_operand false "reg_x1";
     TAB +:+ TAB +:+ ": " +:+ DQ +:+ "r" +:+ DQ +:+ "(reg_x8)";
     TAB +:+ TAB +:+ ", " +:+ DQ +:+ "r" +:+ DQ +:+ "(reg_x0)";
     TAB +:+ TAB +:+ ", " +:+ DQ +:+ "r" +:+ DQ +:+ "(reg_x1)";
     TAB +:+ TAB +:+ ": " +:+
       clobbers (CSyscallsAarch64Generator example_naming) +:+ ");";
     TAB +:+ "if (okay) {";
     TAB +:+ TAB +:+ "*nread = (size_t)reg_x0;";
     TAB +:+ TAB +:+ "*newfd = (cloudabi_fd_t)reg_x1;";
     TAB +:+ TAB +:+ "return 0;";
     TAB +:+ "}";
     TAB +:+ "return reg_x0;";
     "}"].
Proof. by vm_compute. Qed.


Lemma operand_lines_lowered (self : CSyscallsImplGenerator)
    (syscall : Syscall) (line : string) :
  line ∈ operand_lines
           ((if bool_decide (0 < length (output syscall))%nat
             then ["okay"] else []) ++
            map (λ r, "reg_" +:+ r)
              (take (length (output syscall)) (output_registers self)) ++
            extra_errno_operand self syscall) →
  line ∈ lowered_body self syscall.
Proof. intros H. unfold lowered_body. rewrite !elem_of_app. tauto. Qed.

Lemma input_operand_lines_lowered (self : CSyscallsImplGenerator)
    (syscall : Syscall) (line : string) :
  line ∈ input_operand_lines self syscall → line ∈ lowered_body self syscall.
Proof. intros H. unfold lowered_body. rewrite !elem_of_app. tauto. Qed.

Lemma write_back_lines_lowered (self : CSyscallsImplGenerator)
    (syscall : Syscall) (line : string) :
  (0 < length (output syscall))%nat →
  line ∈ write_back_lines self syscall → line ∈ lowered_body self syscall.
Proof.
  intros HM H. unfold lowered_body. rewrite bool_decide_true by done.
  rewrite !elem_of_app. tauto.
Qed.




(** In a lowered body the i-th output member is written back from the i-th
    output register: under the guard, the register, cast from the register
    type into the type of the member, is stored through the pointer
    parameter of the member. *)
Theorem output_members_written_back (self : CSyscallsImplGenerator)
    (syscall : Syscall) (out : list string) :
  generate_syscall_body self syscall = (out, inr tt) →
  ∀ i p, output syscall !! i = Some p →
    ∃ register w,
      output_registers self !! i = Some register
      ∧ output_cast self register p = inr w
      ∧ TAB +:+ TAB +:+ "*" +:+ param_name p +:+ " = " +:+ w +:+ ";" ∈ out
      ∧ TAB +:+ "if (okay) {" ∈ out.
Proof.
  intros Heq i p Hp.
  destruct (generate_syscall_body_inr self syscall out Heq)
    as [(_ & HM & _ & _) Hlegal].
  pose proof (lookup_lt_Some _ _ _ Hp) as Hi.
  destruct (lookup_lt_is_Some_2 (output_registers self) i ltac:(lia))
    as [r Hr].
  destruct (Hlegal i p r Hp Hr) as [w Hw].
  exists r, w. split; [done|]. split; [done|].
  rewrite (generate_syscall_body_inr_lowered self syscall out Heq).
  split; apply write_back_lines_lowered; try lia; unfold write_back_lines.
  - rewrite elem_of_cons, elem_of_app. right. left.
    apply (list_elem_of_lookup_2 _ i).
    rewrite lookup_zip_with, lookup_take_lt, Hr, Hp by done. simpl.
    unfold write_back_line. by rewrite Hw.
  - by left.
Qed.

Lemma output_members_written_back_witness :
  ∃ register w,
    output_registers (CSyscallsX86_64Generator example_naming) !! 1%nat
    = Some register
    ∧ output_cast (CSyscallsX86_64Generator example_naming) register
        {| param_name := "newfd"; param_type := example_fd |} = inr w
    ∧ TAB +:+ TAB +:+ "*" +:+ "newfd" +:+ " = " +:+ w +:+ ";"
      ∈ printed (generate_syscall_body
                   (CSyscallsX86_64Generator example_naming) example_syscall)
    ∧ TAB +:+ "if (okay) {"
      ∈ printed (generate_syscall_body
                   (CSyscallsX86_64Generator example_naming) example_syscall).
Proof.
  apply (output_members_written_back
           (CSyscallsX86_64Generator example_naming) example_syscall
           (printed (generate_syscall_body
                       (CSyscallsX86_64Generator example_naming)
                       example_syscall))
           ltac:(by vm_compute) 1%nat
           {| param_name := "newfd"; param_type := example_fd |}).
  reflexivity.
Defined.

Lemma elem_of_operand_lines (vars : list string) (v : string) :
  v ∈ vars → ∃ first, output_operand first v ∈ operand_lines vars.
Proof.
  destruct vars as [|v0 vars]; [by intros ?%elem_of_nil|].
  intros [->|Hin]%elem_of_cons.
  - exists true. by left.
  - exists false. right.
    by apply (list_elem_of_fmap_2 (output_operand false)).
Qed.

(** The body of a syscall that is not noreturn ends by returning the error
    register, and this register is one of the output operands of the [asm]
    statement: it is written before it is returned. *)
Theorem returned_register_written (self : CSyscallsImplGenerator)
    (syscall : Syscall) (out : list string) :
  noreturn syscall = false →
  generate_syscall_body self syscall = (out, inr tt) →
  (∃ lines,
     out = lines ++
           [TAB +:+ "return reg_" +:+ errno_register self +:+ ";"; "}"])
  ∧ ∃ first,
      output_operand first ("reg_" +:+ errno_register self) ∈ out.
Proof.
  intros Hnr Heq.
  rewrite (generate_syscall_body_inr_lowered self syscall out Heq). split.
  - unfold lowered_body. rewrite Hnr. eexists. rewrite !app_assoc.
    reflexivity.
  - destruct (elem_of_operand_lines
                ((if bool_decide (0 < length (output syscall))%nat
                  then ["okay"] else []) ++
                 map (λ r, "reg_" +:+ r)
                   (take (length (output syscall)) (output_registers self)) ++
                 extra_errno_operand self syscall)
                ("reg_" +:+ errno_register self)) as [first Hfirst].
    + rewrite !elem_of_app. right. unfold extra_errno_operand.
      rewrite Hnr. cbn [negb andb]. case_bool_decide as Hin.
      * left. by apply (list_elem_of_fmap_2 (λ r, "reg_" +:+ r)).
      * right. by left.
    + exists first. by apply operand_lines_lowered.
Qed.

Lemma returned_register_written_witness :
  (∃ lines,
     printed (generate_syscall_body (CSyscallsAarch64Generator example_naming)
                example_syscall)
     = lines ++ [TAB +:+ "return reg_x0;"; "}"])
  ∧ ∃ first,
      output_operand first "reg_x0"
      ∈ printed (generate_syscall_body
                   (CSyscallsAarch64Generator example_naming)
                   example_syscall).
Proof.
  apply (returned_register_written
           (CSyscallsAarch64Generator example_naming) example_syscall);
    [reflexivity|by vm_compute].
Defined.

(** ** Aborts of the lowering *)

Lemma ccast_errors (self : CSyscallsImplGenerator)
    (type_from type_to : abi_type) (name : string) (e : exn) :
  _ccast self type_from type_to name = inl e →
  e = CastException ∨ e = AttributeError.
Proof.
  unfold _ccast, size_of.
  destruct (is_StructType type_from || is_StructType type_to); [|done].
  destruct (layout type_from), (layout type_to);
    try case_decide; intros [= <-]; auto.
Qed.

Lemma printed_declare_registers (self : CSyscallsImplGenerator)
    (syscall : Syscall) :
  Forall (λ line, ∃ d : string * string, line = register_line self d.1 d.2)
    (printed (declare_registers self syscall)).
Proof.
  unfold declare_registers, define_reg.
  printed_lines; by eexists (_, _).
Qed.

Lemma Forall_exists_map {A B} (f : A → B) (l : list B) :
  Forall (λ y, ∃ x, y = f x) l → ∃ xs, l = map f xs.
Proof.
  induction 1 as [|y l [x ->] _ [xs ->]]; [by exists []|].
  by exists (x :: xs).
Qed.

(** When the lowering aborts, either the cast of an output member failed,
    or nothing but the opening brace and register declarations has been
    printed.  An abort on an exhausted register list or on the assertion of
    [define_reg] is of the second kind: no [asm] statement is emitted. *)
Theorem abort_before_asm (self : CSyscallsImplGenerator) (syscall : Syscall)
    (out : list string) (e : exn) :
  generate_syscall_body self syscall = (out, inl e) →
  ((∃ decls, out = " {" :: register_decl_lines self decls)
   ∨ write_back_failure self syscall e)
  ∧ (e = IndexError ∨ e = AssertionError →
     ∃ decls, out = " {" :: register_decl_lines self decls).
Proof.
  intros Heq.
  assert ((∃ decls, out = " {" :: register_decl_lines self decls)
          ∨ write_back_failure self syscall e) as H.
  { rewrite generate_syscall_body_eq, bind_print in Heq.
    pose proof (printed_declare_registers self syscall) as Hlines.
    destruct (declare_registers self syscall) as [o [e'|d]] eqn:Hd.
    - left. rewrite bind_pair in Heq. injection Heq as <- ->.
      cbn [printed fst] in Hlines.
      destruct (Forall_exists_map _ _ Hlines) as [decls ->]. by exists decls.
    - right. apply declare_registers_inr in Hd.
      pose proof (body_after_declarations_post self syscall Hd) as Hpost.
      rewrite bind_pair in Heq. cbn [fst snd] in Heq.
      destruct (body_after_declarations self syscall) as [o' [e'|[]]];
        [|done]. simpl in Heq, Hpost. by injection Heq as _ ->. }
  split; [done|]. intros He. destruct H as [H|(i & p & r & _ & _ & Hcast)];
    [done|].
  apply ccast_errors in Hcast. destruct He, Hcast; congruence.
Qed.

(** Seven input members on x86-64. *)
Definition seven_inputs : Syscall := {|
  syscall_name := "seven"; number := 9; syscall_machine_dep := false;
  noreturn := false;
  input := map (λ n, {| param_name := n; param_type := example_fd |})
             ["a"; "b"; "c"; "d"; "e"; "f"; "g"];
  output := []
|}.

Lemma abort_before_asm_witness :
  ∃ decls,
    printed (generate_syscall_body (CSyscallsX86_64Generator example_naming)
               seven_inputs)
    = " {" ::
      register_decl_lines (CSyscallsX86_64Generator example_naming) decls.
Proof.
  destruct (abort_before_asm (CSyscallsX86_64Generator example_naming)
              seven_inputs
              (printed (generate_syscall_body
                          (CSyscallsX86_64Generator example_naming)
                          seven_inputs)) IndexError) as [_ H];
    [by vm_compute|].
  apply H. by left.
Defined.

(** ** Declarations of pointer chains and arrays *)

(** Types that [vardecl] hands to [typename]. *)
Definition is_declarator (type : abi_type) : bool :=
  match type with
  | PointerType _ _ | ArrayType _ _ => true
  | _ => false
  end.

(** [n] non-const pointers around a type. *)
Definition pointers (n : nat) (type : abi_type) : abi_type :=
  Nat.iter n (λ t, PointerType t false) type.

Fixpoint stars (n : nat) : string :=
  match n with
  | O => ""
  | S n => "*" +:+ stars n
  end.

(** The array type with the given dimensions, the outermost first. *)
Fixpoint arrays (dims : list Z) (type : abi_type) : abi_type :=
  match dims with
  | [] => type
  | count :: dims => ArrayType count (arrays dims type)
  end.

Fixpoint dimensions (dims : list Z) : string :=
  match dims with
  | [] => ""
  | count :: dims => "[" +:+ Py.str count +:+ "]" +:+ dimensions dims
  end.

(** The declarator of a type is its chain of pointers and arrays, down to
    the base type: the first type that is neither a pointer nor an array.
    An atomic type is a base type; what lies below it is rendered by
    [typename] within the name of the base type and is no part of the
    declarator.

    The [const ] prefixes of the pointers of the declarator, the outermost
    first. *)
Fixpoint declarator_consts (type : abi_type) : string :=
  match type with
  | PointerType target_type const =>
      (if const then "const " else "") +:+ declarator_consts target_type
  | ArrayType _ element_type => declarator_consts element_type
  | _ => ""
  end.


Lemma stars_snoc (n : nat) (name : string) :
  stars n +:+ "*" +:+ name = stars (S n) +:+ name.
Proof.
  induction n as [|n IH]; [done|].
  change (stars (S n)) with ("*" +:+ stars n).
  by rewrite string_app_assoc, IH.
Qed.

Lemma vardecl_plain (self : CNaming) (type : abi_type) (name : string)
    (array_need_parens : bool) :
  is_declarator type = false →
  vardecl self type name array_need_parens = typename self type +:+ " " +:+ name.
Proof. by destruct type. Qed.

(** A chain of [n] non-const pointers to a type that is neither a pointer
    nor an array is declared as the type's name, a space, [n] stars and the
    variable name, whatever the parenthesization flag. *)
Theorem vardecl_pointers (self : CNaming) (n : nat) (type : abi_type)
    (name : string) (array_need_parens : bool) :
  is_declarator type = false →
  vardecl self (pointers n type) name array_need_parens
  = typename self type +:+ " " +:+ stars n +:+ name.
Proof.
  intros Hplain. revert name array_need_parens.
  induction n as [|n IH]; intros name array_need_parens.
  - by apply vardecl_plain.
  - change (pointers (S n) type) with (PointerType (pointers n type) false).
    change (vardecl self (PointerType (pointers n type) false) name
              array_need_parens)
      with (vardecl self (pointers n type) ("*" +:+ name) true).
    by rewrite IH, stars_snoc.
Qed.

Lemma vardecl_pointers_witness :
  vardecl example_naming (pointers 3 int_type_char) "argv" false
  = typename example_naming int_type_char +:+ " " +:+ stars 3 +:+ "argv".
Proof. by apply vardecl_pointers. Defined.

Lemma string_app_nil_r (s : string) : s +:+ "" = s.
Proof.
  induction s as [|c s IH]; [reflexivity|]. by rewrite string_app_cons, IH.
Qed.

(** An array type with the given dimensions over a type that is neither a
    pointer nor an array is declared as the type's name, a space, the
    variable name and the dimensions in brackets, the outermost first; the
    name is parenthesized when the flag is set and there is a dimension. *)
Theorem vardecl_arrays (self : CNaming) (dims : list Z) (type : abi_type)
    (name : string) (array_need_parens : bool) :
  is_declarator type = false →
  vardecl self (arrays dims type) name array_need_parens
  = typename self type +:+ " " +:+
    (if array_need_parens && bool_decide (dims ≠ [])
     then "(" +:+ name +:+ ")" else name) +:+ dimensions dims.
Proof.
  intros Hplain. revert name array_need_parens.
  induction dims as [|count dims IH]; intros name array_need_parens.
  - rewrite andb_false_r. cbn [arrays dimensions].
    by rewrite vardecl_plain, string_app_nil_r.
  - cbn [arrays dimensions].
    change (vardecl self (ArrayType count (arrays dims type)) name
              array_need_parens)
      with (vardecl self (arrays dims type)
              ((if array_need_parens then "(" +:+ name +:+ ")" else name)
               +:+ "[" +:+ Py.str count +:+ "]") false).
    rewrite IH. cbn [andb]. rewrite bool_decide_true, andb_true_r by done.
    by rewrite !string_app_assoc.
Qed.

Lemma vardecl_arrays_witness :
  vardecl example_naming (arrays [2; 3] int_type_char) "m" true
  = typename example_naming int_type_char +:+ " " +:+
    (if true && bool_decide ([2; 3] ≠ @nil Z)
     then "(" +:+ "m" +:+ ")" else "m") +:+ dimensions [2; 3].
Proof. by apply vardecl_arrays. Defined.


Example const_position_lost :
  vardecl example_naming
    (PointerType (PointerType int_type_char false) true) "p" false
  = vardecl example_naming
      (PointerType (PointerType int_type_char true) false) "p" false.
Proof. reflexivity. Qed.

(** Below an atomic type the qualifier stays where it is. *)
Example const_below_atomic :
  vardecl example_naming
    (AtomicType (PointerType int_type_char true)) "x" false
  = "_Atomic(const char *) x"
  ∧ declarator_consts (AtomicType (PointerType int_type_char true)) = "".
Proof. by split. Qed.

(** ** Casts *)

(** Whether a cast is legal does not depend on its direction: a value can
    be cast from one type to another exactly when it can be cast back. *)
Theorem ccast_symmetric (self : CSyscallsImplGenerator)
    (type_a type_b : abi_type) (name name' : string) :
  (∃ text, _ccast self type_a type_b name = inr text)
  ↔ (∃ text, _ccast self type_b type_a name' = inr text).
Proof.
  unfold _ccast. rewrite (orb_comm (is_StructType type_b)).
  destruct (is_StructType type_a || is_StructType type_b);
    [|split; intros _; eauto].
  destruct (size_of type_a) as [e|size_a], (size_of type_b) as [e'|size_b];
    try (by split; intros [? [=]]).
  destruct (decide (size_a = size_b)) as [->|Hne].
  - rewrite !decide_False by (intros H; by apply H). split; intros _; eauto.
  - rewrite !decide_True by congruence. split; intros [? [=]].
Qed.

(** ** Layout assertions in closed form *)

(** The generator with no fixed machine word type. *)
Definition without_md_type (self : CGenerator) : CGenerator :=
  {| naming := naming self; header_guard := header_guard self;
     machine_dep := machine_dep self; md_type := None;
     preamble := preamble self |}.

(** The assertion lines for a value when no machine word type is fixed. *)
Definition layout_assert_lines (expression : string) (value : Z * Z)
    : list string :=
  if decide (value.1 = value.2) then unguarded_assert expression value.2
  else guarded_asserts expression value.

Lemma generate_layout_assert_None (self : CGenerator) (expression : string)
    (value : Z * Z) :
  md_type self = None →
  generate_layout_assert self expression value
  = (layout_assert_lines expression value, inr tt).
Proof.
  intros Hmd. unfold generate_layout_assert, layout_assert_lines.
  destruct (decide (value.1 = value.2)) as [Heq|Hne]; cbv iota.
  - rewrite bind_ret, md_type_size_in_None, bind_ret by done. reflexivity.
  - rewrite !md_type_size_in_None, !bind_ret by done. rewrite bind_print.
    reflexivity.
Qed.

(** A fixed machine word type whose size is neither (4, 4) nor (8, 8)
    changes nothing: the assertions are those printed with no machine word
    type at all. *)
Theorem generate_layout_assert_other_width (self : CGenerator) (t : abi_type)
    (s : Z * Z) (expression : string) (value : Z * Z) :
  md_type self = Some t → size_of t = inr s → s ≠ (4, 4) → s ≠ (8, 8) →
  generate_layout_assert self expression value
  = generate_layout_assert (without_md_type self) expression value.
Proof.
  intros Hmd Hs H4 H8.
  rewrite (generate_layout_assert_None (without_md_type self)) by done.
  unfold generate_layout_assert, layout_assert_lines.
  rewrite !(md_type_size_in_Some self _ t s) by done.
  rewrite !bool_decide_false
    by (rewrite ?elem_of_cons, elem_of_nil; intuition congruence).
  destruct (decide (value.1 = value.2)) as [Heq|Hne]; cbv iota;
    rewrite !bind_ret; [reflexivity|].
  rewrite bind_print. reflexivity.
Qed.

Lemma generate_layout_assert_other_width_witness :
  generate_layout_assert (example_generator (Some (PointerType VoidType false)))
    "sizeof(t)" (8, 16)
  = generate_layout_assert
      (without_md_type (example_generator (Some (PointerType VoidType false))))
      "sizeof(t)" (8, 16).
Proof.
  by apply (generate_layout_assert_other_width _ (PointerType VoidType false)
              (4, 8)).
Defined.




(** A struct with a 32-bit integer at (0, 0) and a pointer at (4, 8), of
    size (8, 16) and alignment (4, 8). *)
Definition example_pair : abi_type :=
  StructType "pair"
    {| layout_size := (8, 16); layout_align := (4, 8);
       layout_machine_dep := true |}
    [SimpleStructMember "a" int_type_uint32 (Some (0, 0));
     SimpleStructMember "b" (PointerType VoidType false) (Some (4, 8))]
    [SimpleStructMember "a" int_type_uint32 (Some (0, 0));
     SimpleStructMember "b" (PointerType VoidType false) (Some (4, 8))].


(** ** The machine word type *)

(** A type whose layout is the same on both architectures. *)
Definition machine_independent (type : abi_type) : Prop :=
  ∃ l, layout type = Some l
       ∧ (layout_size l).1 = (layout_size l).2
       ∧ (layout_align l).1 = (layout_align l).2.

(** A type that depends on the architecture only through pointers and
    through the type named [size], at any depth of arrays and atomic
    types. *)
Fixpoint word_dependent_only (type : abi_type) : Prop :=
  match type with
  | PointerType _ _ => True
  | ArrayType _ element_type => word_dependent_only element_type
  | AtomicType target_type => word_dependent_only target_type
  | _ => has_name type "size" = true ∨ machine_independent type
  end.

(** With a machine word type whose layout is the same on both
    architectures, [mi_type] turns every type that depends on the
    architecture only through pointers and the type [size] into a type
    whose layout is the same on both architectures. *)
Theorem mi_type_machine_independent (self : CGenerator) (md : abi_type)
    (type : abi_type) :
  md_type self = Some md → machine_independent md →
  word_dependent_only type →
  machine_independent (mi_type self type).
Proof.
  intros Hmd Hword. revert type. fix IH 1. intros type Htype.
  destruct type as [|name l|name l|kind name l int_type values cprefix
                    |name l parameters return_type|name l raw ms
                    |target_type|target_type const|count element_type];
    cbn [mi_type]; rewrite Hmd; cbn [is_PointerType has_name orb];
    cbn [word_dependent_only has_name] in Htype;
    try (destruct (bool_decide (name = "size"));
         [exact Hword|by destruct Htype]).
  - by destruct Htype.
  - apply IH in Htype. destruct Htype as (l & Hl & Hsize & Halign).
    exists l. by cbn [layout].
  - done.
  - apply IH in Htype. destruct Htype as (l & Hl & Hsize & Halign).
    eexists. cbn [layout]. rewrite Hl. split; [done|].
    cbn [layout_size layout_align fst snd]. by rewrite Hsize.
Qed.

Lemma mi_type_machine_independent_witness :
  machine_independent
    (mi_type (example_generator (Some int_type_uint64))
       (ArrayType 4 (AtomicType (PointerType VoidType false)))).
Proof.
  apply (mi_type_machine_independent _ int_type_uint64).
  - reflexivity.
  - eexists. by repeat split.
  - exact I.
Defined.

Lemma mi_type_eq (self : CGenerator) (mtype : abi_type) :
  mi_type self mtype =
  match md_type self with
  | Some md_type =>
      if is_PointerType mtype || has_name mtype "size" then md_type
      else
        match mtype with
        | ArrayType count element_type =>
            ArrayType count (mi_type self element_type)
        | AtomicType target_type => AtomicType (mi_type self target_type)
        | _ => mtype
        end
  | None => mtype
  end.
Proof. by destruct mtype. Qed.

Lemma mi_type_None (self : CGenerator) (mtype : abi_type) :
  md_type self = None → mi_type self mtype = mtype.
Proof. intros Hmd. by rewrite mi_type_eq, Hmd. Qed.

(** A machine word type that [mi_type] leaves alone makes [mi_type]
    idempotent: normalizing a normalized type changes nothing. *)
Theorem mi_type_idempotent (self : CGenerator) (type : abi_type) :
  (∀ md, md_type self = Some md → mi_type self md = md) →
  mi_type self (mi_type self type) = mi_type self type.
Proof.
  intros Hstable. destruct (md_type self) as [md|] eqn:Hmd;
    [|by rewrite !(mi_type_None self) by done].
  specialize (Hstable md eq_refl).
  revert type. fix IH 1. intros type.
  rewrite (mi_type_eq self type), Hmd.
  destruct (is_PointerType type || has_name type "size") eqn:Hword; [done|].
  destruct type as [|name l|name l|kind name l int_type values cprefix
                    |name l parameters return_type|name l raw ms
                    |target_type|target_type const|count element_type];
    try (by rewrite mi_type_eq, Hmd, Hword).
  - rewrite mi_type_eq, Hmd. cbn [is_PointerType has_name orb].
    by rewrite (IH target_type).
  - rewrite mi_type_eq, Hmd. cbn [is_PointerType has_name orb].
    by rewrite (IH element_type).
Qed.

Lemma mi_type_idempotent_witness :
  mi_type (example_generator (Some int_type_uint64))
    (mi_type (example_generator (Some int_type_uint64))
       (ArrayType 4 (PointerType VoidType false)))
  = mi_type (example_generator (Some int_type_uint64))
      (ArrayType 4 (PointerType VoidType false)).
Proof.
  apply mi_type_idempotent. by intros md [= <-].
Defined.

Example mi_type_not_idempotent :
  let self := example_generator (Some (ArrayType 2 (PointerType VoidType false))) in
  mi_type self (mi_type self (PointerType VoidType false))
  ≠ mi_type self (PointerType VoidType false).
Proof. done. Qed.

(** ** The type emitter *)

Definition type_printed {A} (g : TypeGen A) : list string := g.1.

(** Whether a computation of the type emitter returns. *)
Definition returns {A} (g : TypeGen A) : bool :=
  match g.2 with
  | inr _ => true
  | inl _ => false
  end.

Lemma type_bind_pair {A B} (out : list string) (r : type_exn + A)
    (f : A → TypeGen B) :
  (out, r) ≫= f =
  match r with
  | inl e => (out, inl e)
  | inr a => (out ++ (f a).1, (f a).2)
  end.
Proof. unfold mbind, TypeGen_bind. destruct r; [done|]. by destruct (f _). Qed.

Lemma type_bind_ret {A B} (a : A) (f : A → TypeGen B) : mret a ≫= f = f a.
Proof. unfold mret, mbind, TypeGen_ret, TypeGen_bind. by destruct (f a). Qed.

Lemma type_bind_print {B} (s : string) (f : unit → TypeGen B) :
  run (print s) ≫= f = (s :: (f tt).1, (f tt).2).
Proof. unfold run, print, mbind, TypeGen_bind. simpl. by destruct (f tt). Qed.

Lemma type_bind_assoc {A B C} (m : TypeGen A) (f : A → TypeGen B)
    (g : B → TypeGen C) :
  (m ≫= f) ≫= g = m ≫= (λ a, f a ≫= g).
Proof.
  unfold mbind, TypeGen_bind. destruct m as [out [e|a]]; [done|].
  destruct (f a) as [out' [e|b]]; [done|].
  destruct (g b) as [out'' r]. by rewrite app_assoc.
Qed.

Lemma type_bind_ret_tt (m : TypeGen unit) : (m;; mret tt) = m.
Proof.
  destruct m as [out [e|[]]]; [done|]. rewrite type_bind_pair. simpl.
  by rewrite app_nil_r.
Qed.

Lemma type_for_each_nil {A} (body : A → TypeGen unit) :
  type_for_each [] body = mret tt.
Proof. reflexivity. Qed.

Lemma type_for_each_cons {A} (x : A) (l : list A) (body : A → TypeGen unit) :
  type_for_each (x :: l) body = (body x;; type_for_each l body).
Proof. reflexivity. Qed.

Lemma run_ret {A} (a : A) : run (mret a) = mret a.
Proof. reflexivity. Qed.

Lemma run_bind {A B} (m : Gen A) (f : A → Gen B) :
  run (m ≫= f) = run m ≫= (λ a, run (f a)).
Proof.
  destruct m as [out [e|a]]; [done|].
  unfold run, mbind, Gen_bind, TypeGen_bind. cbn [fst snd].
  by destruct (f a) as [out' [e|b]].
Qed.

Lemma run_for_each {A} (l : list A) (body : A → Gen unit) :
  run (for_each l body) = type_for_each l (λ x, run (body x)).
Proof.
  induction l as [|x l IH]; [done|].
  by rewrite for_each_cons, type_for_each_cons, run_bind, IH.
Qed.

Lemma returns_bind {A B} (m : TypeGen A) (f : A → TypeGen B) :
  returns (m ≫= f) =
  match m.2 with
  | inr a => returns (f a)
  | inl _ => false
  end.
Proof. destruct m as [out [e|a]]; [done|]. by rewrite type_bind_pair. Qed.

Lemma returns_for_each {A} (l : list A) (body : A → TypeGen unit) :
  returns (type_for_each l body) = forallb (λ x, returns (body x)) l.
Proof.
  induction l as [|x l IH]; [done|].
  rewrite type_for_each_cons, returns_bind. cbn [forallb]. unfold returns at 2.
  by destruct (body x).2 as [e|[]].
Qed.

Lemma returns_inr {A} (g : TypeGen A) :
  returns g = true ↔ ∃ out a, g = (out, inr a).
Proof.
  destruct g as [out [e|a]]; unfold returns; simpl.
  - split; [done|]. by intros (? & ? & [=]).
  - split; [eauto|done].
Qed.

Section type_printed_lines.
Context (P : string → Prop).

Lemma type_printed_bind {A B} (m : TypeGen A) (f : A → TypeGen B) :
  Forall P (type_printed m) → (∀ a, Forall P (type_printed (f a))) →
  Forall P (type_printed (m ≫= f)).
Proof.
  destruct m as [out [e|a]]; intros Hm Hf; [done|].
  rewrite type_bind_pair. apply Forall_app. split; [done|apply Hf].
Qed.

Lemma type_printed_for_each {A} (l : list A) (body : A → TypeGen unit) :
  (∀ x, x ∈ l → Forall P (type_printed (body x))) →
  Forall P (type_printed (type_for_each l body)).
Proof.
  induction l as [|x l IH]; intros Hbody; [constructor|].
  rewrite type_for_each_cons. apply type_printed_bind; [apply Hbody; by left|].
  intros _. apply IH. intros y Hy. apply Hbody. by right.
Qed.

Lemma type_printed_print (s : string) :
  P s → Forall P (type_printed (run (print s))).
Proof. by repeat constructor. Qed.

Lemma type_printed_fail {A} (e : type_exn) :
  Forall P (type_printed (fail e : TypeGen A)).
Proof. constructor. Qed.
End type_printed_lines.

(** *** The members of a struct *)

(** The body of the inner loop of [generate_struct_members], for one arm
    [x] of a variant member. *)
Definition generate_arm (self : CGenerator) (x : member) (indent : string)
    : TypeGen unit :=
  match x with
  | VariantMember None type =>
      generate_struct_members self type (indent +:+ TAB)
  | VariantMember (Some name) type | SimpleStructMember name type _ =>
      run (print (indent +:+ TAB +:+ "struct {"));;
      generate_struct_members self type (indent +:+ TAB +:+ TAB);;
      run (print (indent +:+ TAB +:+ "} " +:+ name +:+ ";"))
  | VariantStructMember _ _ => fail (Raised AttributeError)
  end.

(** The equation of the source for the body of the outer loop. *)
Lemma generate_struct_member_eq (self : CGenerator) (m : member)
    (indent : string) :
  generate_struct_member self m indent =
  match m with
  | SimpleStructMember name type _ =>
      generate_simple_member self indent name type
  | VariantStructMember members _ =>
      run (print (indent +:+ "union {"));;
      type_for_each members (λ x, generate_arm self x indent);;
      run (print (indent +:+ "};"))
  | VariantMember _ _ => fail UnknownStructMember
  end.
Proof. destruct m; reflexivity. Qed.

(** [type.raw_members] *)
Definition raw_members_of (type : abi_type) : option (list member) :=
  match type with
  | StructType _ _ raw_members _ => Some raw_members
  | _ => None
  end.

Lemma generate_struct_members_eq (self : CGenerator) (type : abi_type)
    (indent : string) :
  generate_struct_members self type indent =
  match raw_members_of type with
  | Some raw_members =>
      type_for_each raw_members (λ m, generate_struct_member self m indent)
  | None => fail (Raised AttributeError)
  end.
Proof. by destruct type. Qed.

(** Induction on a member through the raw members of the struct types
    below it. *)
Lemma member_raw_ind (P : member → Prop) :
  (∀ name type offset,
     (∀ raw, raw_members_of type = Some raw → Forall P raw) →
     P (SimpleStructMember name type offset)) →
  (∀ members offset,
     Forall P members → P (VariantStructMember members offset)) →
  (∀ name type,
     (∀ raw, raw_members_of type = Some raw → Forall P raw) →
     P (VariantMember name type)) →
  ∀ m, P m.
Proof.
  intros Hsimple Hvariant Harm. fix IH 1.
  intros [name type offset|members offset|name type].
  - apply Hsimple. destruct type as [| | | | |sname l raw ms| | |];
      intros raw' [= <-].
    revert raw. fix IHl 1.
    intros [|m raw]; constructor; [apply IH | apply IHl].
  - apply Hvariant. revert members. fix IHl 1.
    intros [|m ms]; constructor; [apply IH | apply IHl].
  - apply Harm. destruct type as [| | | | |sname l raw ms| | |];
      intros raw' [= <-].
    revert raw. fix IHl 1.
    intros [|m raw]; constructor; [apply IH | apply IHl].
Qed.

(** A line that begins with the indentation. *)
Definition indented (indent line : string) : Prop :=
  ∃ rest, line = indent +:+ rest.

Lemma indented_deeper (indent more line : string) :
  indented (indent +:+ more) line → indented indent line.
Proof. intros [rest ->]. exists (more +:+ rest). apply string_app_assoc. Qed.

Lemma generate_struct_member_indented (self : CGenerator) (m : member) :
  (∀ indent,
     Forall (indented indent)
       (type_printed (generate_struct_member self m indent)))
  ∧ (∀ indent,
       Forall (indented indent) (type_printed (generate_arm self m indent))).
Proof.
  induction m as [name type offset IH|members offset IH|name type IH]
    using member_raw_ind.
  - split; intros indent.
    + rewrite generate_struct_member_eq. unfold generate_simple_member.
      apply type_printed_bind; [constructor|]. intros align.
      apply type_printed_print. by eexists.
    + unfold generate_arm. rewrite generate_struct_members_eq.
      apply type_printed_bind; [apply type_printed_print; by eexists|].
      intros _. apply type_printed_bind;
        [|intros _; apply type_printed_print; by eexists].
      destruct (raw_members_of type) as [raw|] eqn:Hraw; [|constructor].
      apply type_printed_for_each. intros m' Hin.
      specialize (IH raw eq_refl). rewrite Forall_forall in IH.
      apply (Forall_impl _ _ _ (proj1 (IH m' Hin) _)).
      intros line. apply indented_deeper.
  - split; intros indent; [|constructor].
    rewrite generate_struct_member_eq.
    apply type_printed_bind; [apply type_printed_print; by eexists|].
    intros _. apply type_printed_bind;
      [|intros _; apply type_printed_print; by eexists].
    apply type_printed_for_each. intros x Hin.
    rewrite Forall_forall in IH. apply (IH x Hin).
  - split; intros indent; [constructor|].
    unfold generate_arm. rewrite !generate_struct_members_eq.
    destruct name as [name|].
    + apply type_printed_bind; [apply type_printed_print; by eexists|].
      intros _. apply type_printed_bind;
        [|intros _; apply type_printed_print; by eexists].
      destruct (raw_members_of type) as [raw|] eqn:Hraw; [|constructor].
      apply type_printed_for_each. intros m' Hin.
      specialize (IH raw eq_refl). rewrite Forall_forall in IH.
      apply (Forall_impl _ _ _ (proj1 (IH m' Hin) _)).
      intros line. apply indented_deeper.
    + destruct (raw_members_of type) as [raw|] eqn:Hraw; [|constructor].
      apply type_printed_for_each. intros m' Hin.
      specialize (IH raw eq_refl). rewrite Forall_forall in IH.
      apply (Forall_impl _ _ _ (proj1 (IH m' Hin) _)).
      intros line. apply indented_deeper.
Qed.

(** Every line that [generate_struct_members] prints begins with the
    indentation it was given, at any depth of nested variant members and
    also when it fails on the way. *)
Theorem generate_struct_members_indented (self : CGenerator)
    (type : abi_type) (indent : string) :
  Forall (indented indent)
    (type_printed (generate_struct_members self type indent)).
Proof.
  rewrite generate_struct_members_eq.
  destruct (raw_members_of type) as [raw|]; [|constructor].
  apply type_printed_for_each. intros m _.
  apply generate_struct_member_indented.
Qed.

(** The members that [generate_struct_members] can declare: a simple
    member whose normalized type has a layout, and a variant member each
    of whose arms has a name and a struct type with members of this kind. *)
Fixpoint accepted (self : CGenerator) (m : member) {struct m} : bool :=
  match m with
  | SimpleStructMember _ type _ =>
      bool_decide (is_Some (layout (mi_type self type)))
  | VariantStructMember members _ =>
      forallb (λ x,
        match x with
        | VariantMember _ type | SimpleStructMember _ type _ =>
            match type with
            | StructType _ _ raw_members _ =>
                forallb (λ m', accepted self m') raw_members
            | _ => false
            end
        | VariantStructMember _ _ => false
        end) members
  | VariantMember _ _ => false
  end.

Definition accepted_arm (self : CGenerator) (x : member) : bool :=
  match x with
  | VariantMember _ type | SimpleStructMember _ type _ =>
      match raw_members_of type with
      | Some raw_members => forallb (accepted self) raw_members
      | None => false
      end
  | VariantStructMember _ _ => false
  end.

Lemma accepted_eq (self : CGenerator) (m : member) :
  accepted self m =
  match m with
  | SimpleStructMember _ type _ =>
      bool_decide (is_Some (layout (mi_type self type)))
  | VariantStructMember members _ => forallb (accepted_arm self) members
  | VariantMember _ _ => false
  end.
Proof.
  destruct m as [| members ?|]; try reflexivity.
  cbn [accepted]. induction members as [|x members IH]; [done|].
  cbn [forallb]. rewrite IH. f_equal.
  destruct x as [? type ?| |? type]; try reflexivity; by destruct type.
Qed.

Lemma forallb_ext_elem_of {A} (f g : A → bool) (l : list A) :
  (∀ x, x ∈ l → f x = g x) → forallb f l = forallb g l.
Proof.
  induction l as [|x l IH]; intros Hfg; [done|].
  cbn [forallb]. rewrite (Hfg x) by left. rewrite IH; [done|].
  intros y Hy. apply Hfg. by right.
Qed.

Lemma returns_print {B} (s : string) (f : unit → TypeGen B) :
  returns (run (print s) ≫= f) = returns (f tt).
Proof. by rewrite type_bind_print. Qed.

Lemma returns_struct_members (self : CGenerator) (type : abi_type)
    (indent : string) :
  (∀ raw, raw_members_of type = Some raw →
     Forall (λ m, ∀ indent,
               returns (generate_struct_member self m indent)
               = accepted self m) raw) →
  returns (generate_struct_members self type indent) =
  match raw_members_of type with
  | Some raw_members => forallb (accepted self) raw_members
  | None => false
  end.
Proof.
  intros IH. rewrite generate_struct_members_eq.
  destruct (raw_members_of type) as [raw|]; [|done].
  rewrite returns_for_each. apply forallb_ext_elem_of. intros m Hin.
  specialize (IH raw eq_refl). rewrite Forall_forall in IH. by apply IH.
Qed.

Lemma returns_then_print (m : TypeGen unit) (s : string) :
  returns (m;; run (print s)) = returns m.
Proof. destruct m as [out [e|[]]]; [done|]. by rewrite type_bind_pair. Qed.

Lemma returns_generate_struct_member (self : CGenerator) (m : member) :
  (∀ indent,
     returns (generate_struct_member self m indent) = accepted self m)
  ∧ (∀ indent, returns (generate_arm self m indent) = accepted_arm self m).
Proof.
  induction m as [name type offset IH|members offset IH|name type IH]
    using member_raw_ind.
  - split; intros indent.
    + rewrite generate_struct_member_eq, accepted_eq.
      unfold generate_simple_member, align_of.
      destruct (layout (mi_type self type)) as [l|]; [|done].
      rewrite bool_decide_true by done.
      change (run (lift (inr (layout_align l))))
        with (mret (layout_align l) : TypeGen _).
      by rewrite type_bind_ret.
    + unfold generate_arm, accepted_arm.
      rewrite returns_print, returns_then_print.
      apply returns_struct_members.
      intros raw Hraw. apply (Forall_impl _ _ _ (IH raw Hraw)).
      by intros m [H _].
  - split; intros indent; [|done].
    rewrite generate_struct_member_eq, accepted_eq.
    rewrite returns_print, returns_then_print, returns_for_each.
    apply forallb_ext_elem_of.
    intros x Hin. rewrite Forall_forall in IH. apply (IH x Hin).
  - split; intros indent; [done|].
    unfold generate_arm, accepted_arm.
    assert (∀ indent', returns (generate_struct_members self type indent') =
              match raw_members_of type with
              | Some raw_members => forallb (accepted self) raw_members
              | None => false
              end) as Hm.
    { intros indent'. apply returns_struct_members.
      intros raw Hraw. apply (Forall_impl _ _ _ (IH raw Hraw)).
      by intros m [H _]. }
    destruct name as [name|]; [|apply Hm].
    by rewrite returns_print, returns_then_print.
Qed.

(** [generate_struct_members] returns exactly when the type is a struct
    type whose raw members it can declare: simple members whose normalized
    type has a layout, and variant members whose arms have struct types
    with such members.  On a member list that holds anything else it
    fails. *)
Theorem generate_struct_members_returns (self : CGenerator)
    (type : abi_type) (indent : string) :
  (∃ out, generate_struct_members self type indent = (out, inr tt))
  ↔ ∃ raw_members,
      raw_members_of type = Some raw_members
      ∧ forallb (accepted self) raw_members = true.
Proof.
  assert (returns (generate_struct_members self type indent) =
          match raw_members_of type with
          | Some raw_members => forallb (accepted self) raw_members
          | None => false
          end) as Hm.
  { apply returns_struct_members. intros raw _. apply Forall_forall.
    intros m _. apply returns_generate_struct_member. }
  split.
  - intros [out Heq]. rewrite Heq in Hm.
    destruct (raw_members_of type) as [raw|]; [|done]. by exists raw.
  - intros (raw & Hraw & Hok). rewrite Hraw, Hok in Hm.
    apply returns_inr in Hm as (out & [] & Heq). by exists out.
Qed.

(** *** The definition of a type *)

Lemma type_bind_ext {A B} (m : TypeGen A) (f g : A → TypeGen B) :
  (∀ a, f a = g a) → m ≫= f = m ≫= g.
Proof.
  intros Hfg. destruct m as [out [e|a]]; [done|].
  by rewrite !type_bind_pair, Hfg.
Qed.

Lemma run_lift_inr {A B} (a : A) (f : A → TypeGen B) :
  run (lift (inr a)) ≫= f = f a.
Proof. apply type_bind_ret. Qed.

(** The branch of [generate_type] for an integer-like type is
    [generate_type_IntLike], the same lines of the source. *)
Lemma generate_type_IntLike_run (self : CGenerator) (kind : IntLikeKind)
    (name : string) (l : Layout) (int_type : abi_type) (values : list Value)
    (cprefix : string) :
  generate_type self (IntLikeType kind name l int_type values cprefix)
  = run (generate_type_IntLike self kind name l int_type values cprefix).
Proof.
  unfold generate_type, generate_type_IntLike.
  assert (∀ skip : bool,
    (if skip then mret tt
     else
       (run (print ("typedef " +:+
                    vardecl (naming self) int_type
                      (typename (naming self)
                         (IntLikeType kind name l int_type values cprefix))
                      false +:+ ";"));;
        if decide (0 < length values)%nat then
          type_for_each values (λ v,
            run (define_line (valname (naming self) cprefix v)
                   (Py.max_of
                      (λ v, String.length (valname (naming self) cprefix v))
                      values)
                   (value v) (val_format_of kind l values)))
        else mret tt);;
       run (print "")) =
    run (if skip then mret tt
         else
           print ("typedef " +:+
                  vardecl (naming self) int_type
                    (typename (naming self)
                       (IntLikeType kind name l int_type values cprefix))
                    false +:+ ";");;
           (if decide (0 < length values)%nat then
              for_each values (λ v,
                define_line (valname (naming self) cprefix v)
                  (Py.max_of
                     (λ v, String.length (valname (naming self) cprefix v))
                     values)
                  (value v) (val_format_of kind l values))
            else mret tt);;
           print "")) as Hbody.
  { intros [|]; [done|].
    rewrite run_bind, type_bind_assoc. apply type_bind_ext. intros [].
    rewrite run_bind. destruct (decide (0 < length values)%nat);
      [by rewrite run_for_each|done]. }
  destruct (machine_dep self) as [md|].
  - cbn [machine_dep_of layout]. rewrite run_lift_inr, type_bind_ret.
    apply Hbody.
  - rewrite type_bind_ret. apply (Hbody false).
Qed.

(** The dispatch of [generate_type] on the class of the type. *)
Definition type_definition (self : CGenerator) (type : abi_type)
    : TypeGen unit :=
  match type with
  | IntLikeType kind _ l int_type values cprefix =>
      run (print ("typedef " +:+
                  vardecl (naming self) int_type
                    (typename (naming self) type) false +:+ ";"));;
      if decide (0 < length values)%nat then
        let width :=
          Py.max_of (λ v, String.length (valname (naming self) cprefix v))
            values in
        let val_format := val_format_of kind l values in
        type_for_each values (λ v,
          run (define_line (valname (naming self) cprefix v) width
                 (value v) val_format))
      else mret tt
  | FunctionType _ _ parameters return_type =>
      parameters ← run (lift (function_parameters self parameters));
      run (print ("typedef " +:+
                  vardecl (naming self) (mi_type self return_type)
                    (typename (naming self) type +:+ "(" +:+
                     join ", " parameters +:+ ")") true +:+ ";"))
  | StructType _ l raw_members _ =>
      run (print "typedef struct {");;
      generate_struct_members self type TAB;;
      run (print ("} " +:+ typename (naming self) type +:+ ";"));;
      run (generate_struct_asserts self type raw_members l)
  | _ => fail UnknownClassOfType
  end.

(** The filter on machine dependence: whether the type is skipped. *)
Definition filter (self : CGenerator) (type : abi_type) : TypeGen bool :=
  match machine_dep self with
  | Some md =>
      type_md ← run (lift (machine_dep_of type));
      mret (negb (Bool.eqb type_md md))
  | None => mret false
  end.

Lemma generate_type_eq (self : CGenerator) (type : abi_type) :
  generate_type self type =
  (skip ← filter self type;
   if (skip : bool) then mret tt
   else type_definition self type;; run (print "")).
Proof. reflexivity. Qed.

(** A generator restricted to the types of one kind of machine dependence
    skips a type of the other kind. *)
Definition filtered (self : CGenerator) (type : abi_type) : Prop :=
  ∃ md type_md,
    machine_dep self = Some md ∧ machine_dep_of type = inr type_md
    ∧ type_md ≠ md.

Lemma filter_spec (self : CGenerator) (type : abi_type) :
  (filtered self type ∧ filter self type = mret true)
  ∨ (¬ filtered self type
     ∧ (filter self type = mret false
        ∨ ∃ e, filter self type = ([], inl e))).
Proof.
  unfold filter, filtered.
  destruct (machine_dep self) as [md|];
    [|right; split; [by intros (? & ? & [=] & _)|by left]].
  destruct (machine_dep_of type) as [e|type_md].
  - right. split; [by intros (? & ? & _ & [=] & _)|]. right. by eexists.
  - rewrite run_lift_inr.
    destruct (decide (type_md = md)) as [->|Hne].
    + right. split; [by intros (? & ? & [= <-] & [= <-] & ?)|]. left.
      by rewrite eqb_reflx.
    + left. split; [by exists md, type_md|].
      by destruct type_md, md.
Qed.

Lemma type_then_print_inv (m : TypeGen unit) (s : string)
    (out : list string) :
  (m;; run (print s)) = (out, inr tt) →
  ∃ lines, m = (lines, inr tt) ∧ out = lines ++ [s].
Proof.
  destruct m as [lines [e|[]]]; [done|]. rewrite type_bind_pair.
  intros [= <-]. by exists lines.
Qed.

Lemma type_definition_typedef (self : CGenerator) (type : abi_type)
    (lines : list string) :
  type_definition self type = (lines, inr tt) →
  ∃ decl rest, lines = ("typedef " +:+ decl) :: rest.
Proof.
  destruct type as [| | |kind name l int_type values cprefix
                    |name l parameters return_type|name l raw ms| | |];
    try done; unfold type_definition.
  - rewrite type_bind_print. intros [= <- _]. by eexists _, _.
  - destruct (function_parameters self parameters) as [e|ps]; [done|].
    rewrite run_lift_inr. intros [= <-]. by eexists _, _.
  - rewrite type_bind_print. intros [= <- _]. by eexists _, _.
Qed.

(** A type that the filter on machine dependence skips prints nothing and
    is no failure.  For any other type, what [generate_type] prints when it
    returns begins with a typedef line and ends with an empty line. *)
Theorem generate_type_typedef_then_blank (self : CGenerator)
    (type : abi_type) :
  (filtered self type → generate_type self type = ([], inr tt))
  ∧ (∀ out, ¬ filtered self type →
       generate_type self type = (out, inr tt) →
       ∃ decl lines, out = ("typedef " +:+ decl) :: lines ++ [""]).
Proof.
  rewrite generate_type_eq.
  destruct (filter_spec self type) as [[Hf ->]|[Hnf [->|[e ->]]]].
  - split; [by rewrite type_bind_ret|done].
  - split; [done|]. intros out _. rewrite type_bind_ret.
    intros (lines & Hlines & ->)%type_then_print_inv.
    apply type_definition_typedef in Hlines as (decl & rest & ->).
    by exists decl, rest.
  - split; [done|]. by intros out _.
Qed.

Lemma generate_type_typedef_then_blank_witness :
  ∃ decl lines,
    type_printed (generate_type (example_generator None) example_pair)
    = ("typedef " +:+ decl) :: lines ++ [""].
Proof.
  destruct (generate_type_typedef_then_blank (example_generator None)
              example_pair) as [_ H].
  apply H; [by intros (? & ? & [=] & _)|by vm_compute].
Defined.

(** The struct of the end-to-end scenario: the typedef with its members,
    one unguarded offset assertion for [a], two guarded ones for [b], two
    guarded size assertions and two guarded alignment assertions. *)
Example generate_type_pair :
  generate_type (example_generator None) example_pair
  = (["typedef struct {";
      TAB +:+ "_Alignas(4) uint32_t a;";
      TAB +:+ "void *b;";
      "} cloudabi_pair_t;"] ++
     unguarded_assert "offsetof(cloudabi_pair_t, a)" 0 ++
     guarded_asserts "offsetof(cloudabi_pair_t, b)" (4, 8) ++
     guarded_asserts "sizeof(cloudabi_pair_t)" (8, 16) ++
     guarded_asserts "_Alignof(cloudabi_pair_t)" (4, 8) ++
     [""], inr tt).
Proof. by vm_compute. Qed.

(** ** The syscall emitter *)

(** The text of pieces written in order. *)
Definition concat_text (chunks : list string) : string :=
  foldr String.append "" chunks.

(** The text of lines printed in order. *)
Definition lines_text (lines : list string) : string :=
  concat_text (map (λ line, line +:+ NL) lines).

(** The parameter list between the parentheses: [void] if there is no
    parameter, else every parameter on a line of its own after a tab,
    with a comma after each except the last. *)
Definition params_text (params : list string) : string :=
  match params with
  | [] => "void"
  | _ => NL +:+ TAB +:+ join ("," +:+ NL +:+ TAB) params +:+ NL
  end.

(** The head of a prototype or of a definition, to the closing
    parenthesis. *)
Definition signature (naming : CNaming) (errno_layout : Layout)
    (syscall : Syscall) : string :=
  "static inline " +:+
  (if noreturn syscall then "_Noreturn void"
   else typename naming (errno_type errno_layout)) +:+ NL +:+
  syscallname naming syscall +:+ "(" +:+
  params_text (syscall_params naming syscall) +:+ ")".

Lemma concat_text_cons (chunk : string) (chunks : list string) :
  concat_text (chunk :: chunks) = chunk +:+ concat_text chunks.
Proof. reflexivity. Qed.

Lemma concat_text_app (chunks1 chunks2 : list string) :
  concat_text (chunks1 ++ chunks2)
  = concat_text chunks1 +:+ concat_text chunks2.
Proof.
  induction chunks1 as [|c chunks1 IH]; [done|].
  cbn [app concat_text foldr]. fold (concat_text (chunks1 ++ chunks2)).
  fold (concat_text chunks1). by rewrite IH, string_app_assoc.
Qed.

Lemma bind_write {B} (s : string) (f : unit → Gen B) :
  write s ≫= f = (s :: (f tt).1, (f tt).2).
Proof. apply bind_print. Qed.

Lemma bind_write_line {B} (s : string) (f : unit → Gen B) :
  write_line s ≫= f = ((s +:+ NL) :: (f tt).1, (f tt).2).
Proof. apply bind_print. Qed.

Lemma for_each_write_line {A} (l : list A) (f : A → string) :
  for_each l (λ x, write_line (f x)) = (map (λ x, f x +:+ NL) l, inr tt).
Proof. apply (for_each_print l (λ x, f x +:+ NL)). Qed.

Lemma parameter_lines_text (p : string) (params : list string) :
  concat_text
    (map (λ p, (TAB +:+ p +:+ ",") +:+ NL) (but_last (p :: params)) ++
     [(TAB +:+ last_of (p :: params)) +:+ NL])
  = TAB +:+ join ("," +:+ NL +:+ TAB) (p :: params) +:+ NL.
Proof.
  revert p. induction params as [|q params IH]; intros p.
  - cbn. by rewrite string_app_nil_r.
  - change (but_last (p :: q :: params)) with (p :: but_last (q :: params)).
    change (last_of (p :: q :: params)) with (last_of (q :: params)).
    change (join ("," +:+ NL +:+ TAB) (p :: q :: params))
      with (p +:+ ("," +:+ NL +:+ TAB) +:+
            join ("," +:+ NL +:+ TAB) (q :: params)).
    cbn [map app]. change (concat_text (?c :: ?cs))
      with (c +:+ concat_text cs).
    rewrite IH. by rewrite !string_app_assoc.
Qed.

Lemma params_chunks (params : list string) :
  ∃ chunks,
    (if decide (params = []) then write "void"
     else
       write_line "";;
       for_each (but_last params) (λ p, write_line (TAB +:+ p +:+ ","));;
       write_line (TAB +:+ last_of params))
    = (chunks, inr tt)
    ∧ concat_text chunks = params_text params.
Proof.
  destruct params as [|p params]; [by exists ["void"]|].
  rewrite decide_False by done.
  exists (NL :: map (λ p, (TAB +:+ p +:+ ",") +:+ NL)
                  (but_last (p :: params)) ++
          [(TAB +:+ last_of (p :: params)) +:+ NL]).
  split.
  - rewrite bind_write_line, for_each_write_line.
    by rewrite bind_pair.
  - change (concat_text (?c :: ?cs)) with (c +:+ concat_text cs).
    by rewrite parameter_lines_text.
Qed.

Lemma generate_syscall_text_eq (naming : CNaming) (errno_layout : Layout)
    (generate_syscall_body : Syscall → Gen unit) (syscall : Syscall) :
  text (generate_syscall naming errno_layout generate_syscall_body syscall)
  = signature naming errno_layout syscall +:+
    lines_text (printed (generate_syscall_body syscall)) +:+
    match (generate_syscall_body syscall).2 with
    | inr _ => NL
    | inl _ => ""
    end
  ∧ (generate_syscall naming errno_layout generate_syscall_body syscall).2
    = (generate_syscall_body syscall).2.
Proof.
  unfold generate_syscall, signature.
  destruct (params_chunks (syscall_params naming syscall))
    as (chunks & Hchunks & <-).
  assert (∀ first : string,
    let g :=
      write_line first;;
      write (syscallname naming syscall +:+ "(");;
      (if decide (syscall_params naming syscall = []) then write "void"
       else
         write_line "";;
         for_each (but_last (syscall_params naming syscall))
           (λ p, write_line (TAB +:+ p +:+ ","));;
         write_line (TAB +:+ last_of (syscall_params naming syscall)));;
      write ")";;
      written (generate_syscall_body syscall);;
      write_line "" in
    text g = first +:+ NL +:+ syscallname naming syscall +:+ "(" +:+
             concat_text chunks +:+ ")" +:+
             lines_text (printed (generate_syscall_body syscall)) +:+
             match (generate_syscall_body syscall).2 with
             | inr _ => NL
             | inl _ => ""
             end
    ∧ g.2 = (generate_syscall_body syscall).2) as Hg.
  { intros first g. subst g. rewrite Hchunks.
    rewrite bind_write_line, bind_write. cbn [fst snd].
    rewrite bind_pair. cbn [fst snd]. rewrite bind_write. cbn [fst snd].
    unfold written, lines_text, printed.
    destruct (generate_syscall_body syscall) as [out [e|[]]];
      rewrite bind_pair; cbn [fst snd]; unfold text; cbn [fst snd];
      (split; [|done]);
      change (foldr String.append "") with concat_text;
      change ((write_line "").1) with [NL];
      repeat (rewrite ?concat_text_cons, ?concat_text_app);
      change (concat_text []) with "";
      rewrite ?string_app_assoc, ?string_app_nil_r; reflexivity. }
  destruct (noreturn syscall).
  - destruct (Hg ("static inline " +:+ "_Noreturn " +:+
                  typename naming VoidType)) as [Htext Hres].
    split; [|exact Hres]. rewrite Htext.
    by rewrite !string_app_assoc.
  - destruct (Hg ("static inline " +:+ "" +:+
                  typename naming (errno_type errno_layout)))
      as [Htext Hres].
    split; [|exact Hres]. rewrite Htext.
    by rewrite !string_app_assoc.
Qed.

Lemma lowered_body_braces (self : CSyscallsImplGenerator)
    (syscall : Syscall) :
  ∃ lines, lowered_body self syscall = [" {"] ++ lines ++ ["}"].
Proof.
  unfold lowered_body. eexists. f_equal.
  rewrite !app_assoc.
  match goal with
  | |- ?l ++ [?a; ?b] = _ => change (l ++ [a; b]) with (l ++ [a] ++ [b])
  end.
  rewrite app_assoc. reflexivity.
Qed.

Lemma lines_text_app (lines1 lines2 : list string) :
  lines_text (lines1 ++ lines2) = lines_text lines1 +:+ lines_text lines2.
Proof. unfold lines_text. by rewrite map_app, concat_text_app. Qed.


(** The prototype of a syscall and its definition by a backend agree to
    the closing parenthesis: the prototype goes on with a semicolon, the
    definition with a block in braces, and both end with an empty line. *)
Theorem prototype_matches_definition (self : CSyscallsImplGenerator)
    (errno_layout : Layout) (syscall : Syscall) (out : list string) :
  generate_syscall_body self syscall = (out, inr tt) →
  text (generate_syscall (impl_naming self) errno_layout
          generate_prototype_body syscall)
  = signature (impl_naming self) errno_layout syscall +:+ ";" +:+ NL +:+ NL
  ∧ ∃ block,
      text (generate_syscall (impl_naming self) errno_layout
              (generate_syscall_body self) syscall)
      = signature (impl_naming self) errno_layout syscall +:+
        " {" +:+ NL +:+ block +:+ "}" +:+ NL +:+ NL.
Proof.
  intros Heq. split.
  - by destruct (generate_syscall_text_eq (impl_naming self) errno_layout
                   generate_prototype_body syscall) as [-> _].
  - destruct (generate_syscall_text_eq (impl_naming self) errno_layout
                (generate_syscall_body self) syscall) as [-> _].
    rewrite Heq. cbn [printed fst snd].
    rewrite (generate_syscall_body_inr_lowered self syscall out Heq).
    destruct (lowered_body_braces self syscall) as [lines ->].
    exists (lines_text lines).
    rewrite !lines_text_app. unfold lines_text at 1 3. cbn [map].
    rewrite !concat_text_cons. change (concat_text []) with "".
    rewrite ?string_app_assoc, ?string_app_nil_r. reflexivity.
Qed.

Lemma prototype_matches_definition_witness :
  text (generate_syscall example_naming (example_layout 2 2)
          generate_prototype_body example_syscall)
  = signature example_naming (example_layout 2 2) example_syscall +:+
    ";" +:+ NL +:+ NL
  ∧ ∃ block,
      text (generate_syscall example_naming (example_layout 2 2)
              (generate_syscall_body
                 (CSyscallsX86_64Generator example_naming))
              example_syscall)
      = signature example_naming (example_layout 2 2) example_syscall +:+
        " {" +:+ NL +:+ block +:+ "}" +:+ NL +:+ NL.
Proof.
  apply (prototype_matches_definition
           (CSyscallsX86_64Generator example_naming) (example_layout 2 2)
           example_syscall
           (printed (generate_syscall_body
                       (CSyscallsX86_64Generator example_naming)
                       example_syscall))).
  by vm_compute.
Defined.

Example generate_syscall_prototype :
  text (generate_syscall example_naming (example_layout 2 2)
          generate_prototype_body proc_exit)
  = "static inline _Noreturn void" +:+ NL +:+
    "cloudabi_sys_proc_exit(" +:+ NL +:+
    TAB +:+ "uint32_t rval" +:+ NL +:+
    ");" +:+ NL +:+ NL.
Proof. by vm_compute. Qed.

Example generate_type_function :
  generate_type (example_generator None)
    (FunctionType "threadentry" (example_layout 4 8)
       [SimpleStructMember "tid" example_fd None;
        SimpleStructMember "aux" (PointerType VoidType false) None]
       VoidType)
  = (["typedef void cloudabi_threadentry_t(cloudabi_fd_t tid, void *aux);";
      ""], inr tt).
Proof. by vm_compute. Qed.

(** * The register variables and the output operands of a body *)

(** ** Register declarations *)

(** The declaration of a variable bound to a register, as C text: a tab,
    [register], the declaration of [reg_<register>] at the register type,
    the binding [asm("<register>")], the initializer if there is one, and
    a semicolon. *)
Definition register_declaration (self : CSyscallsImplGenerator)
    (register defn : string) : string :=
  TAB +:+ "register " +:+
  vardecl (impl_naming self) (register_t self) ("reg_" +:+ register) false
  +:+ " asm(" +:+ DQ +:+ register +:+ DQ +:+ ")" +:+ defn +:+ ";".

(** The line declares a variable bound to a register. *)
Definition declares_register (self : CSyscallsImplGenerator) (line : string)
    : Prop :=
  ∃ register defn, line = register_declaration self register defn.

(** One of the two backends of the generator, with any naming policy. *)
Definition reference_backend (self : CSyscallsImplGenerator) : Prop :=
  ∃ naming,
    self = CSyscallsX86_64Generator naming
    ∨ self = CSyscallsAarch64Generator naming.

Lemma printed_body_after_declarations (P : string → Prop)
    (self : CSyscallsImplGenerator) (syscall : Syscall) :
  (output syscall ≠ [] →
   P (okay_line self) ∧ P (asm_check self) ∧ P (TAB +:+ "if (okay) {") ∧
   (∀ s, P (TAB +:+ TAB +:+ "*" +:+ s)) ∧
   P (TAB +:+ TAB +:+ "return 0;") ∧ P (TAB +:+ "}")) →
  P (TAB +:+ "asm volatile (") → P (asm self) →
  (∀ first var, P (output_operand first var)) → P (TAB +:+ TAB +:+ ":") →
  (∀ s, P (TAB +:+ TAB +:+ ": " +:+ s)) →
  (∀ s, P (TAB +:+ TAB +:+ ", " +:+ s)) →
  (if noreturn syscall then P (TAB +:+ "for (;;);")
   else P (TAB +:+ "return reg_" +:+ errno_register self +:+ ";")) →
  P "}" →
  Forall P (printed (body_after_declarations self syscall)).
Proof.
  intros Hokay Hasm Hasm' Hop Hcolon Hin Hin' Hfinal Hclose.
  unfold body_after_declarations, output_operands, input_operands,
    write_back.
  assert (bool_decide (0 < length (output syscall))%nat = true →
          output syscall ≠ []) as Hne.
  { intros ?%bool_decide_eq_true_1 Hnil. rewrite Hnil in *. simpl in *. lia. }
  destruct (bool_decide (0 < length (output syscall))%nat);
    [destruct (Hokay (Hne eq_refl)) as (? & ? & ? & ? & ? & ?)|clear Hokay];
    destruct (noreturn syscall);
    printed_lines; auto.
  all: rewrite <- ?string_app_assoc; auto.
Qed.

(** The lines of a body that begin with two tabs, with a tab and a
    statement, or with a brace are no register declarations. *)
Lemma two_tabs_no_declaration (self : CSyscallsImplGenerator) (s : string) :
  ¬ declares_register self (TAB +:+ TAB +:+ s).
Proof. by intros (register & defn & [=]). Qed.

Lemma statement_no_declaration (self : CSyscallsImplGenerator)
    (c : ascii) (s : string) :
  c ≠ "r"%char → ¬ declares_register self (TAB +:+ String c s).
Proof. intros Hc (register & defn & [= ->]). done. Qed.

Lemma return_no_declaration (self : CSyscallsImplGenerator) (s : string) :
  ¬ declares_register self (TAB +:+ "return " +:+ s).
Proof. by intros (register & defn & [=]). Qed.

Lemma reference_backend_rest (self : CSyscallsImplGenerator)
    (syscall : Syscall) :
  reference_backend self →
  Forall (λ line, ¬ declares_register self line)
    (printed (body_after_declarations self syscall)).
Proof.
  intros Hself.
  assert (¬ declares_register self (okay_line self)
          ∧ ¬ declares_register self (asm self)
          ∧ ¬ declares_register self (asm_check self)) as (Hokay & Hasm & Hchk).
  { destruct Hself as [naming [->| ->]];
      repeat split; by intros (register & defn & [=]). }
  apply printed_body_after_declarations.
  - intros _. repeat split; try done.
    + by apply statement_no_declaration.
    + intros s. apply two_tabs_no_declaration.
    + apply two_tabs_no_declaration.
    + by apply statement_no_declaration.
  - by apply statement_no_declaration.
  - done.
  - intros first var. apply two_tabs_no_declaration.
  - apply two_tabs_no_declaration.
  - intros s. apply two_tabs_no_declaration.
  - intros s. apply two_tabs_no_declaration.
  - destruct (noreturn syscall).
    + by apply statement_no_declaration.
    + apply (return_no_declaration self
               ("reg_" +:+ errno_register self +:+ ";")).
  - by intros (register & defn & [=]).
Qed.

(** C2.  The register declarations succeed when the register lists are
    long enough, the number register and the first N input registers are
    distinct and the input casts are legal.  When they succeed they are one
    line [register <type> reg_<r> asm("<r>")...;] for each declared
    register, no register is declared twice, and the declared registers
    are exactly the number register, the first N input registers, the
    first M output registers and the error register.  A generated body is
    the opening brace, these declarations, and the rest of the body; in the
    body of either backend no line of the rest declares a register
    variable. *)
Theorem declared_registers_spec (self : CSyscallsImplGenerator)
    (syscall : Syscall) :
  (declarable self syscall →
   ∃ out defined_regs,
     declare_registers self syscall = (out, inr defined_regs))
  ∧ (∀ out defined_regs,
       declare_registers self syscall = (out, inr defined_regs) →
       ∃ decls,
         out = map (λ d, register_declaration self d.1 d.2) decls
         ∧ NoDup decls.*1
         ∧ (∀ r, r ∈ decls.*1 ↔ used_registers self syscall r)
         ∧ (∀ r, r ∈ defined_regs ↔ used_registers self syscall r))
  ∧ (∀ out,
       generate_syscall_body self syscall = (out, inr tt) →
       ∃ decls rest,
         out = " {" ::
               map (λ d, register_declaration self d.1 d.2) decls ++ rest
         ∧ NoDup decls.*1
         ∧ (∀ r, r ∈ decls.*1 ↔ used_registers self syscall r)
         ∧ (reference_backend self →
            Forall (λ line, ¬ declares_register self line) rest)).
Proof.
  assert (∀ out defined_regs,
            declare_registers self syscall = (out, inr defined_regs) →
            ∃ decls,
              out = map (λ d, register_declaration self d.1 d.2) decls
              ∧ NoDup decls.*1
              ∧ (∀ r, r ∈ decls.*1 ↔ used_registers self syscall r)
              ∧ (∀ r, r ∈ defined_regs ↔ used_registers self syscall r))
    as Hdecl.
  { intros out d Heq. pose proof (declare_registers_post self syscall) as H.
    rewrite Heq in H. destruct H as (decls & (-> & Hnd & ->) & Hmem & _).
    exists decls. repeat split; try done; try apply Hmem.
    - rewrite elem_of_list_to_set. apply Hmem.
    - rewrite elem_of_list_to_set. apply Hmem. }
  split; [apply declare_registers_declarable|]. split; [exact Hdecl|].
  intros out Heq. rewrite generate_syscall_body_eq, bind_print in Heq.
  destruct (declare_registers self syscall ≫= _) as [out' r] eqn:Hrest.
  simpl in Heq. injection Heq as <- ->.
  apply bind_inr_inv in Hrest as (out1 & d & out2 & Hd & Hafter & ->).
  destruct (Hdecl out1 d Hd) as (decls & -> & Hnd & Hmem & _).
  exists decls, out2. repeat split; try done; try apply Hmem.
  intros Hself. pose proof (reference_backend_rest self syscall Hself) as H.
  by rewrite Hafter in H.
Qed.

Lemma declared_registers_spec_witness :
  ∃ decls rest,
    printed (generate_syscall_body (CSyscallsX86_64Generator example_naming)
               example_syscall)
    = " {" ::
      map (λ d, register_declaration
                  (CSyscallsX86_64Generator example_naming) d.1 d.2) decls ++
      rest
    ∧ NoDup decls.*1
    ∧ (∀ r, r ∈ decls.*1 ↔
            used_registers (CSyscallsX86_64Generator example_naming)
              example_syscall r)
    ∧ Forall (λ line,
        ¬ declares_register (CSyscallsX86_64Generator example_naming) line)
        rest.
Proof.
  destruct (declared_registers_spec (CSyscallsX86_64Generator example_naming)
              example_syscall) as (_ & _ & H).
  destruct (H (printed (generate_syscall_body
                          (CSyscallsX86_64Generator example_naming)
                          example_syscall)) ltac:(by vm_compute))
    as (decls & rest & Hout & Hnd & Hmem & Hrest).
  exists decls, rest. repeat split; try done; try apply Hmem.
  apply Hrest. exists example_naming. by left.
Defined.

(** The declarations of the example, as text. *)
Example declared_registers_example :
  take 5 (printed (generate_syscall_body
                     (CSyscallsX86_64Generator example_naming)
                     example_syscall))
  = " {" ::
    map (λ d, register_declaration
                (CSyscallsX86_64Generator example_naming) d.1 d.2)
      [("rax", " = 7"); ("rdi", " = (uint64_t)fd");
       ("rsi", " = (uint64_t)buf"); ("rdx", "")]
  ∧ register_declaration (CSyscallsX86_64Generator example_naming)
      "rdi" " = (uint64_t)fd"
    = TAB +:+ "register uint64_t reg_rdi asm(" +:+ DQ +:+ "rdi" +:+ DQ +:+
      ") = (uint64_t)fd;".
Proof. split; by vm_compute. Qed.

(** ** Output operands *)

(** A writable operand of an [asm] statement, as C text: two tabs, the
    separator, and the variable under the constraint ["=r"]. *)
Definition writable_operand (separator var : string) : string :=
  TAB +:+ TAB +:+ separator +:+ " " +:+ DQ +:+ "=r" +:+ DQ +:+
  "(" +:+ var +:+ ")".

(** The output operand list of an [asm] statement for the given variables,
    as C text: the first operand after a colon, every other one after a
    comma, and a lone colon when there is no variable. *)
Definition writable_operands (vars : list string) : list string :=
  match vars with
  | [] => [TAB +:+ TAB +:+ ":"]
  | v :: vs => writable_operand ":" v :: map (writable_operand ",") vs
  end.

(** A syscall with one input and no output member. *)
Definition example_close : Syscall := {|
  syscall_name := "fd_close"; number := 3; syscall_machine_dep := false;
  noreturn := false;
  input := [{| param_name := "fd"; param_type := example_fd |}];
  output := []
|}.

Lemma writable_operands_lines (vars : list string) :
  operand_lines vars = writable_operands vars.
Proof. by destruct vars. Qed.

(** C8.  In every generated body the output operand list stands between
    the lines of the [asm] template and the first input operand, and it
    holds, each as a writable operand: the status variable if there are
    output members, the variables of the first M output registers, and the
    variable of the error register as one more operand exactly when the
    syscall is not noreturn and the error register is not among the first M
    output registers.  For a noreturn syscall, and when the error register
    is among the first M output registers, no operand is added. *)
Theorem output_operands_spec (self : CSyscallsImplGenerator)
    (syscall : Syscall) (out : list string) :
  generate_syscall_body self syscall = (out, inr tt) →
  let M := length (output syscall) in
  let status := if bool_decide (0 < M)%nat then ["okay"] else [] in
  let outputs := map (λ r, "reg_" +:+ r) (take M (output_registers self)) in
  ∃ before ops rest,
    out = before ++
          [TAB +:+ "asm volatile ("; asm self] ++
          (if bool_decide (0 < M)%nat then [asm_check self] else []) ++
          ops ++
          (TAB +:+ TAB +:+ ": " +:+ DQ +:+ "r" +:+ DQ +:+ "(reg_" +:+
           syscall_num_register self +:+ ")") :: rest
    ∧ (noreturn syscall = false →
       errno_register self ∉ take M (output_registers self) →
       ops = writable_operands
               (status ++ outputs ++ ["reg_" +:+ errno_register self]))
    ∧ (noreturn syscall = false →
       errno_register self ∈ take M (output_registers self) →
       ops = writable_operands (status ++ outputs))
    ∧ (noreturn syscall = true → ops = writable_operands (status ++ outputs)).
Proof.
  intros Heq M status outputs.
  rewrite (generate_syscall_body_inr_lowered self syscall out Heq).
  unfold lowered_body. fold M. fold status. fold outputs.
  exists ([" {"] ++
          register_decl_lines self (lowered_declarations self syscall) ++
          (if bool_decide (0 < M)%nat then [okay_line self] else [])),
    (operand_lines (status ++ outputs ++ extra_errno_operand self syscall)),
    (map (λ r, TAB +:+ TAB +:+ ", " +:+ DQ +:+ "r" +:+ DQ +:+ "(reg_" +:+ r
               +:+ ")")
       (take (length (input syscall)) (input_registers self)) ++
     [TAB +:+ TAB +:+ ": " +:+ clobbers self +:+ ");"] ++
     (if bool_decide (0 < M)%nat then write_back_lines self syscall else [])
     ++
     [if noreturn syscall then TAB +:+ "for (;;);"
      else TAB +:+ "return reg_" +:+ errno_register self +:+ ";";
      "}"]).
  split.
  - unfold input_operand_lines. rewrite <- !app_assoc. reflexivity.
  - rewrite writable_operands_lines. unfold extra_errno_operand. fold M.
    repeat split.
    + intros -> Hnot. cbn [negb andb]. by rewrite bool_decide_false.
    + intros -> Hin. cbn [negb andb]. rewrite bool_decide_true by done.
      cbn [negb]. by rewrite app_nil_r.
    + intros ->. cbn [negb andb]. by rewrite app_nil_r.
Qed.

Lemma output_operands_spec_witness :
  (∃ before rest,
     printed (generate_syscall_body (CSyscallsAarch64Generator example_naming)
                example_close)
     = before ++
       [TAB +:+ "asm volatile ("; TAB +:+ TAB +:+ DQ +:+ "\tsvc 0\n" +:+ DQ]
       ++
       [TAB +:+ TAB +:+ ": " +:+ DQ +:+ "=r" +:+ DQ +:+ "(reg_x0)"] ++
       (TAB +:+ TAB +:+ ": " +:+ DQ +:+ "r" +:+ DQ +:+ "(reg_x8)") :: rest)
  ∧ (∃ before rest,
       printed (generate_syscall_body
                  (CSyscallsX86_64Generator example_naming) example_syscall)
       = before ++
         [TAB +:+ "asm volatile ("; TAB +:+ TAB +:+ DQ +:+ "\tsyscall\n" +:+ DQ;
          TAB +:+ TAB +:+ DQ +:+ "\tsetnc %0\n" +:+ DQ] ++
         [TAB +:+ TAB +:+ ": " +:+ DQ +:+ "=r" +:+ DQ +:+ "(okay)";
          TAB +:+ TAB +:+ ", " +:+ DQ +:+ "=r" +:+ DQ +:+ "(reg_rax)";
          TAB +:+ TAB +:+ ", " +:+ DQ +:+ "=r" +:+ DQ +:+ "(reg_rdx)"] ++
         (TAB +:+ TAB +:+ ": " +:+ DQ +:+ "r" +:+ DQ +:+ "(reg_rax)") :: rest).
Proof.
  split.
  - destruct (output_operands_spec (CSyscallsAarch64Generator example_naming)
                example_close
                (printed (generate_syscall_body
                            (CSyscallsAarch64Generator example_naming)
                            example_close)) ltac:(by vm_compute))
      as (before & ops & rest & Hout & Hextra & _ & _).
    rewrite Hextra in Hout by (reflexivity || by intros ?%elem_of_nil).
    by exists before, rest.
  - destruct (output_operands_spec (CSyscallsX86_64Generator example_naming)
                example_syscall
                (printed (generate_syscall_body
                            (CSyscallsX86_64Generator example_naming)
                            example_syscall)) ltac:(by vm_compute))
      as (before & ops & rest & Hout & _ & Hamong & _).
    rewrite Hamong in Hout by (reflexivity || by left).
    by exists before, rest.
Defined.
